(** * DLGameViewer: the scan / enrich / cache pipeline

    A shallow embedding of [DLGameViewer2.py]: identifier extraction,
    metadata scraping, thumbnail download, executable discovery, the
    folder scan with its classification lists, and the image loader
    worker.

    Conventions.
    - A Python [str] is a Rocq [string]; one [ascii] stands for one
      character.  On that range the regular expression class [\d] is
      exactly ['0'..'9'], and [str.lower] changes nothing but letters.
    - Functions of the interpreter, of the operating system and of the
      third party packages (os.path, os, requests, bs4, PIL, json, float
      arithmetic) are fields of the class [Runtime]; the code of the
      repository is written out over them.
    - The file system and the list of HTTP requests issued so far form
      the [world], threaded through every function that touches them.
      The remote server is a function of the requests it has already
      seen, so it may answer the same URL differently later on. *)

From Stdlib Require Import ZArith Ascii String List Bool.
From Stdlib Require Strings.Byte Floats Uint63.
From stdpp Require Import base tactics option list gmap strings.

Import ListNotations.
Local Open Scope string_scope.
Local Open Scope Z_scope.

Set Default Proof Using "Type".
#[local] Set Warnings "-clear-no-such-hyp".

(** ** Strings *)

Module Str.

Definition is_digit (c : ascii) : bool :=
  (48 <=? nat_of_ascii c)%nat && (nat_of_ascii c <=? 57)%nat.

Definition is_upper (c : ascii) : bool :=
  (65 <=? nat_of_ascii c)%nat && (nat_of_ascii c <=? 90)%nat.

Definition lower_char (c : ascii) : ascii :=
  if is_upper c then ascii_of_nat (nat_of_ascii c + 32) else c.

(** [s.lower()] *)
Fixpoint lower (s : string) : string :=
  match s with
  | EmptyString => EmptyString
  | String c r => String (lower_char c) (lower r)
  end.

(** [s.startswith(p)] *)
Definition startswith (p s : string) : bool := String.prefix p s.

Fixpoint rev (s : string) : string :=
  match s with
  | EmptyString => EmptyString
  | String c r => rev r ++ String c EmptyString
  end.

(** [s.endswith(p)] *)
Definition endswith (p s : string) : bool := String.prefix (rev p) (rev s).

(** [s.lstrip('/')] *)
Fixpoint lstrip_slash (s : string) : string :=
  match s with
  | String "/" r => lstrip_slash r
  | _ => s
  end.

(** [s[:2]] *)
Definition take2 (s : string) : string := String.substring 0 2 s.

(** [sep.join(l)] *)
Fixpoint join_with (sep : string) (l : list string) : string :=
  match l with
  | [] => ""
  | [x] => x
  | x :: r => x ++ sep ++ join_with sep r
  end.

(** [template.format(arg)] for a template with one [{}] field. *)
Fixpoint format1 (template arg : string) : string :=
  match template with
  | String "{" (String "}" r) => arg ++ r
  | String c r => String c (format1 r arg)
  | EmptyString => EmptyString
  end.

Definition digit_char (n : nat) : ascii := ascii_of_nat (48 + n mod 10).

Fixpoint decimal_aux (fuel n : nat) (acc : string) : string :=
  match fuel with
  | O => acc
  | S fuel' =>
      let acc' := String (digit_char n) acc in
      if (n <? 10)%nat then acc' else decimal_aux fuel' (n / 10) acc'
  end.

(** [str(n)] for a natural number. *)
Definition decimal (n : nat) : string := decimal_aux (S n) n "".

(** [f"{idx:02d}"] *)
Definition fmt02 (idx : nat) : string :=
  if (idx <? 10)%nat then String "0" (decimal idx) else decimal idx.

End Str.

(** ** Identifier extraction: [re.search(r'([RV]J\d+)', folder_name)] *)

(** The longest run of digits at the head of [s]: what [\d+] consumes,
    being greedy and followed by nothing. *)
Fixpoint take_digits (s : string) : string :=
  match s with
  | String c r => if Str.is_digit c then String c (take_digits r) else ""
  | EmptyString => ""
  end.

Definition is_RV (c : ascii) : bool := Ascii.eqb c "R" || Ascii.eqb c "V".

(** A match of the pattern that starts at the first character of [s]. *)
Definition match_here (s : string) : option string :=
  match s with
  | String a (String b r) =>
      if is_RV a && Ascii.eqb b "J" then
        match take_digits r with
        | EmptyString => None
        | ds => Some (String a (String b ds))
        end
      else None
  | _ => None
  end.

(** [re.search]: the match at the leftmost position that has one. *)
Fixpoint re_search (s : string) : option string :=
  match match_here s with
  | Some m => Some m
  | None =>
      match s with
      | EmptyString => None
      | String _ r => re_search r
      end
  end.

Definition extract_game_code (folder_name : string) : option string :=
  re_search folder_name.

(** What the pattern [[RV]J\d+] denotes, stated without the search. *)

Fixpoint all_digits (s : string) : bool :=
  match s with
  | EmptyString => true
  | String c r => Str.is_digit c && all_digits r
  end.

(** An identifier: R or V, then J, then one digit or more. *)
Definition is_code (c : string) : Prop :=
  ∃ p ds, c = String p (String "J" ds) ∧ (p = "R" ∨ p = "V")%char
          ∧ ds ≠ "" ∧ all_digits ds = true.

(** [c] occurs in [s], starting after [n] characters. *)
Definition occurs_at (s : string) (n : nat) (c : string) : Prop :=
  ∃ pre post, s = pre ++ c ++ post ∧ String.length pre = n ∧ is_code c.

(** [c] is the occurrence that starts first, and the longest one there. *)
Definition first_occurrence (s c : string) : Prop :=
  ∃ n, occurs_at s n c
       ∧ ∀ n' c', occurs_at s n' c' →
           (n ≤ n')%nat ∧ (n' = n → (String.length c' ≤ String.length c)%nat).

(** ** URL tables of [DLGameViewer.__init__] *)

Definition base_urls : gmap string string :=
  <["RJ" := "https://www.dlsite.com/maniax/work/=/product_id/{}.html"]>
  (<["VJ" := "https://www.dlsite.com/pro/work/=/product_id/{}.html"]> ∅).

Definition api_urls : gmap string string :=
  <["RJ" := "https://www.dlsite.com/maniax/product/info/ajax?product_id={}&cdn_cache_min=1"]>
  (<["VJ" := "https://www.dlsite.com/pro/product/info/ajax?product_id={}&cdn_cache_min=1"]> ∅).

(** ** The runtime: interpreter, operating system and packages *)

Definition bytes := list Byte.byte.

(** What [requests.get] gives: an exception, or a response. *)
Inductive http_result :=
| ConnectionError
| Response (status_code : Z) (content : bytes).

(** [response.raise_for_status()] raises for 4xx and 5xx codes. *)
Definition raises_for_status (status_code : Z) : bool :=
  (400 <=? status_code) && (status_code <? 600).

(** What the queries of [scrape_game_info] find in a parsed page. *)
Record soup := {
  (** [soup.find('h1', {'itemprop': 'name'})]: its [.text] *)
  h1_name : option string;
  (** [soup.find('span', {'class': 'maker_name'})]: its [.text] *)
  maker_name : option string;
  (** [soup.find('div', {'id': 'category_type'})]: the [title]
      attribute of each of its spans, [None] where a span has none *)
  category_type : option (list (option string));
  (** [soup.find('div', {'class': 'main_genre'})]: [.text] of each link *)
  main_genre : option (list string);
  (** [soup.find('div', {'class': 'product-slider-data'})]: the
      [data-src] attribute of each inner div, [None] where absent *)
  product_slider_data : option (list (option string))
}.

Class Runtime := {
  (** os.path *)
  path_normpath : string → string;
  path_join : string → list string → string;
  path_relpath : string → string → string;
  (** the file system; [None] stands for a raised OSError *)
  fs : Type;
  path_exists : fs → string → bool;
  path_isdir : fs → string → bool;
  os_listdir : fs → string → option (list string);
  (** [os.walk(top)]: the [(root, files)] of each directory visited *)
  os_walk : fs → string → list (string * list string);
  (** [os.makedirs(path, exist_ok=True)] *)
  os_makedirs : fs → string → option fs;
  read_file : fs → string → option bytes;
  (** PIL *)
  image : Type;
  image_open : bytes → option image;
  image_size : image → Z * Z;
  image_resize : image → Z * Z → option image;
  (** [img.save(path, 'JPEG', quality=q)]: the file system it leaves,
      whether or not it raised *)
  image_save : fs → image → string → Z → fs;
  (** floating point numbers; [None] stands for a raised exception *)
  pyfloat : Type;
  float_zero : pyfloat;
  int_truediv : Z → Z → option pyfloat;
  int_div_float : Z → pyfloat → option pyfloat;
  int_mul_float : Z → pyfloat → option pyfloat;
  float_gt : pyfloat → pyfloat → bool;
  int_of_float : pyfloat → option Z;
  (** requests: the server's answer to a URL, given the URLs already
      requested *)
  requests_get : list string → string → http_result;
  (** [response.text] and [BeautifulSoup(text, 'html.parser')] *)
  html_parse : bytes → soup;
  (** [str.strip] *)
  str_strip : string → string;
  (** [float(response.json()[game_code].get('rate_average_2dp', 0))];
      [None] when any step of it raises *)
  rate_average_2dp : bytes → string → option pyfloat
}.

(** ** Records of the program *)

(** The text [json.dumps] writes for a list of strings, held as the list
    it denotes. *)
Inductive json_text := JsonArray (items : list string).

Definition json_dumps (l : list string) : json_text := JsonArray l.
Definition json_loads (t : json_text) : list string :=
  match t with JsonArray l => l end.

(** Exceptions that leave a function. *)
Inductive exn :=
| KeyError (key : string)
| OSError.

Inductive outcome (A : Type) :=
| Done (a : A)
| Abort (e : exn) (a : A).
Arguments Done {A} a.
Arguments Abort {A} e a.

Inductive raising (A : Type) :=
| Return (a : A)
| Raise (e : exn).
Arguments Return {A} a.
Arguments Raise {A} e.

Section Program.

Context `{R : Runtime}.

Record world := {
  w_fs : fs;
  (** URLs requested so far, oldest first *)
  w_requests : list string
}.

Definition with_fs (w : world) (f : fs) : world :=
  {| w_fs := f; w_requests := w_requests w |}.

(** [requests.get(url, headers=self.headers)] *)
Definition http (url : string) (w : world) : http_result * world :=
  (requests_get (w_requests w) url,
   {| w_fs := w_fs w; w_requests := w_requests w ++ [url] |}).

Record game_info := {
  gi_game_code : string;
  gi_title : string;
  gi_rating : pyfloat;
  gi_circle : string;
  gi_work_type : string;
  gi_genres : string;
  gi_cover_image : string
}.

(** A row of table [games], without the key SQLite assigns. *)
Record row := {
  game_code : string;
  title : string;
  rating : pyfloat;
  circle : string;
  work_type : string;
  genres : string;
  cover_image : string;
  folder_path : string;
  exe_files : json_text
}.

(** ** [resize_image_maintain_aspect] *)

Definition resize_image_maintain_aspect (img : image) (target_size : Z * Z)
  : option image :=
  let '(width, height) := image_size img in
  let '(target_width, target_height) := target_size in
  aspect ← int_truediv width height;
  target_aspect ← int_truediv target_width target_height;
  if float_gt aspect target_aspect then
    let new_width := target_width in
    q ← int_div_float new_width aspect;
    new_height ← int_of_float q;
    image_resize img (new_width, new_height)
  else
    let new_height := target_height in
    p ← int_mul_float new_height aspect;
    new_width ← int_of_float p;
    image_resize img (new_width, new_height).

(** ** [DLGameViewer.get_rating] *)

Definition get_rating (code : string) (w : world) : pyfloat * world :=
  match api_urls !! Str.take2 code with
  | None => (float_zero, w)
  | Some template =>
      let '(r, w1) := http (Str.format1 template code) w in
      match r with
      | ConnectionError => (float_zero, w1)
      | Response status content =>
          if raises_for_status status then (float_zero, w1)
          else match rate_average_2dp content code with
               | Some x => (x, w1)
               | None => (float_zero, w1)
               end
      end
  end.

(** ** [DLGameViewer.download_images] *)

Definition MAX_WIDTH : Z := 200.

Definition enumerate {A} (l : list A) : list (nat * A) :=
  combine (seq 0 (length l)) l.

Definition thumb_path (thumb_dir : string) (idx : nat) : string :=
  path_join thumb_dir [Str.fmt02 idx ++ ".jpg"].

Definition absolute_url (url : string) : string :=
  if Str.startswith "http" url then url
  else "https://" ++ Str.lstrip_slash url.

(** The image as it is saved: scaled to width 200 when wider. *)
Definition shrink (img : image) : option image :=
  let '(width, height) := image_size img in
  if MAX_WIDTH <? width then
    ratio ← int_truediv MAX_WIDTH width;
    p ← int_mul_float height ratio;
    new_height ← int_of_float p;
    image_resize img (MAX_WIDTH, new_height)
  else Some img.

(** The [try] block of the loop; every exception ends the iteration. *)
Definition fetch_image (url img_path : string) (w : world) : world :=
  let '(r, w1) := http url w in
  match r with
  | ConnectionError => w1
  | Response status content =>
      if raises_for_status status then w1
      else match (img ← image_open content; shrink img) with
           | None => w1
           | Some img => with_fs w1 (image_save (w_fs w1) img img_path 50)
           end
  end.

Definition download_one (thumb_dir : string) (w : world) (item : nat * string)
  : world :=
  let '(idx, url) := item in
  let img_path := thumb_path thumb_dir idx in
  if path_exists (w_fs w) img_path then w
  else fetch_image (absolute_url url) img_path w.

(** [None]: [os.makedirs] raised, nothing was done. *)
Definition download_images (image_urls : list string) (code : string)
    (folder : string) (w : world) : option world :=
  let image_urls := firstn 5 image_urls in
  let thumb_dir := path_join folder ["thumb_imgs"] in
  f ← os_makedirs (w_fs w) thumb_dir;
  Some (fold_left (download_one thumb_dir) (enumerate image_urls) (with_fs w f)).

(** Two file systems agree on a path. *)
Definition same_at (p : string) (f f' : fs) : Prop :=
  path_exists f' p = path_exists f p ∧ read_file f' p = read_file f p.

(** The thumbnail of an item of the loop is not on disk. *)
Definition missing (thumb_dir : string) (f : fs) (item : nat * string) : Prop :=
  path_exists f (thumb_path thumb_dir item.1) = false.

#[global] Instance missing_dec thumb_dir f item :
  Decision (missing thumb_dir f item).
Proof. unfold missing. apply _. Defined.

(** ** [DLGameViewer.scrape_game_info] *)

Definition nonempty (s : string) : bool :=
  match s with EmptyString => false | _ => true end.

Definition work_type_of (page : soup) : string :=
  let titles :=
    match category_type page with
    | Some spans => map (default "") spans
    | None => []
    end in
  Str.join_with ", " (filter (λ s, nonempty s = true) titles).

Definition genres_of (page : soup) : string :=
  Str.join_with ", " (default [] (main_genre page)).

Definition image_urls_of (page : soup) : list string :=
  match product_slider_data page with
  | Some divs => omap id divs
  | None => []
  end.

(** The cover image part of the [try] block; [None]: an exception. *)
Definition cover_image_of (image_urls : list string) (code folder : string)
    (w : world) : option string * world :=
  match image_urls with
  | [] => (Some "", w)
  | _ =>
      let thumb_dir := path_join folder ["thumb_imgs"] in
      match os_makedirs (w_fs w) thumb_dir with
      | None => (None, w)
      | Some f =>
          let w1 := with_fs w f in
          let cover := path_join folder ["thumb_imgs"; "00.jpg"] in
          if path_exists (w_fs w1) cover then (Some cover, w1)
          else match download_images image_urls code folder w1 with
               | None => (None, w1)
               | Some w2 => (Some cover, w2)
               end
      end
  end.

(** The [try] block; [None] is what the [except] clause returns. *)
Definition scrape_page (code folder url : string) (w : world)
  : option game_info * world :=
  let '(r, w1) := http url w in
  match r with
  | ConnectionError => (None, w1)
  | Response status content =>
      if raises_for_status status then (None, w1)
      else
        let page := html_parse content in
        match h1_name page with
        | None => (None, w1)
        | Some h1 =>
            let title := str_strip h1 in
            let '(rating, w2) := get_rating code w1 in
            let circle :=
              match maker_name page with
              | Some t => str_strip t
              | None => "Unknown"
              end in
            let work_type := work_type_of page in
            let genres := genres_of page in
            let image_urls := image_urls_of page in
            match cover_image_of image_urls code folder w2 with
            | (None, w3) => (None, w3)
            | (Some cover, w3) =>
                (Some {| gi_game_code := code; gi_title := title;
                         gi_rating := rating; gi_circle := circle;
                         gi_work_type := work_type; gi_genres := genres;
                         gi_cover_image := cover |}, w3)
            end
        end
  end.

Definition scrape_game_info (code folder : string) (w : world)
  : raising (option game_info) * world :=
  let prefix := Str.take2 code in
  match base_urls !! prefix with
  | None => (Raise (KeyError prefix), w)
  | Some template =>
      let '(info, w1) := scrape_page code folder (Str.format1 template code) w in
      (Return info, w1)
  end.

(** The page request failed: [requests.get] raised, or the status is
    one [raise_for_status] raises for. *)
Definition fetch_failed (r : http_result) : bool :=
  match r with
  | ConnectionError => true
  | Response status _ => raises_for_status status
  end.

(** The parsed page of a request that did not fail. *)
Definition page_of (r : http_result) : option soup :=
  match r with
  | ConnectionError => None
  | Response status content =>
      if raises_for_status status then None else Some (html_parse content)
  end.

(** [os.makedirs] raises on the thumbnail directory of [folder]: at the
    call in [scrape_game_info], or at the one in [download_images] when
    there is no cover file yet. *)
Definition cache_dir_fails (folder : string) (f : fs) : Prop :=
  let thumb_dir := path_join folder ["thumb_imgs"] in
  match os_makedirs f thumb_dir with
  | None => True
  | Some f1 =>
      path_exists f1 (path_join folder ["thumb_imgs"; "00.jpg"]) = false
      ∧ os_makedirs f1 thumb_dir = None
  end.

(** ** [DLGameViewer.get_exe_files] *)

Definition is_exe (file : string) : bool :=
  Str.endswith ".exe" (Str.lower file).

Definition exe_list (f : fs) (folder : string) : list string :=
  flat_map
    (λ '(root, files),
       map (λ file, path_relpath (path_join root [file]) folder)
           (filter (λ file, is_exe file = true) files))
    (os_walk f folder).

Definition get_exe_files (f : fs) (folder : string) : json_text :=
  json_dumps (exe_list f folder).

(** ** [DLGameViewer.process_folders] *)

(** The state of a scan: the world, table [games], the local set
    [registered_folders] and the three lists kept on the viewer. *)
Record scan := {
  sc_world : world;
  sc_games : list row;
  registered_folders : gset string;
  skipped_folders : list string;
  invalid_folders : list string;
  no_exe_folders : list string
}.

(** [set([os.path.normpath(row[0]) for row in cursor.fetchall()])] *)
Definition load_registered (games : list row) : gset string :=
  list_to_set (map (λ r, path_normpath (folder_path r)) games).

Definition start_scan (games : list row) (w : world) : scan :=
  {| sc_world := w; sc_games := games;
     registered_folders := load_registered games;
     skipped_folders := []; invalid_folders := []; no_exe_folders := [] |}.

Definition skip (st : scan) (folder_name : string) : scan :=
  {| sc_world := sc_world st; sc_games := sc_games st;
     registered_folders := registered_folders st;
     skipped_folders := skipped_folders st ++ [folder_name];
     invalid_folders := invalid_folders st;
     no_exe_folders := no_exe_folders st |}.

Definition mark_invalid (st : scan) (w : world) (folder : string) : scan :=
  {| sc_world := w; sc_games := sc_games st;
     registered_folders := registered_folders st;
     skipped_folders := skipped_folders st;
     invalid_folders := invalid_folders st ++ [folder];
     no_exe_folders := no_exe_folders st |}.

Definition mark_no_exe (st : scan) (w : world) (folder_name : string) : scan :=
  {| sc_world := w; sc_games := sc_games st;
     registered_folders := registered_folders st;
     skipped_folders := skipped_folders st;
     invalid_folders := invalid_folders st;
     no_exe_folders := no_exe_folders st ++ [folder_name] |}.

Definition new_row (info : game_info) (folder : string) (exe : json_text) : row :=
  {| game_code := gi_game_code info; title := gi_title info;
     rating := gi_rating info; circle := gi_circle info;
     work_type := gi_work_type info; genres := gi_genres info;
     cover_image := gi_cover_image info; folder_path := folder;
     exe_files := exe |}.

(** The INSERT, the commit and [registered_folders.add]. *)
Definition register (st : scan) (w : world) (r : row) : scan :=
  {| sc_world := w; sc_games := sc_games st ++ [r];
     registered_folders := registered_folders st ∪ {[folder_path r]};
     skipped_folders := skipped_folders st;
     invalid_folders := invalid_folders st;
     no_exe_folders := no_exe_folders st |}.

Definition set_world (st : scan) (w : world) : scan :=
  {| sc_world := w; sc_games := sc_games st;
     registered_folders := registered_folders st;
     skipped_folders := skipped_folders st;
     invalid_folders := invalid_folders st;
     no_exe_folders := no_exe_folders st |}.

Definition folder_of (game_path folder_name : string) : string :=
  path_normpath (path_join game_path [folder_name]).

(** The body of the inner loop, for one name of the listing. *)
Definition scan_folder (game_path : string) (st : scan) (folder_name : string)
  : outcome scan :=
  let folder := folder_of game_path folder_name in
  if negb (path_isdir (w_fs (sc_world st)) folder) then Done st
  else if bool_decide (folder ∈ registered_folders st) then
    Done (skip st folder_name)
  else
    match extract_game_code folder_name with
    | None => Done (mark_invalid st (sc_world st) folder)
    | Some code =>
        match scrape_game_info code folder (sc_world st) with
        | (Raise e, w) => Abort e (set_world st w)
        | (Return None, w) => Done (mark_invalid st w folder)
        | (Return (Some info), w) =>
            let exe := get_exe_files (w_fs w) folder in
            match json_loads exe with
            | [] => Done (mark_no_exe st w folder_name)
            | _ => Done (register st w (new_row info folder exe))
            end
        end
    end.

Fixpoint scan_listing (game_path : string) (names : list string) (st : scan)
  : outcome scan :=
  match names with
  | [] => Done st
  | folder_name :: rest =>
      match scan_folder game_path st folder_name with
      | Done st' => scan_listing game_path rest st'
      | Abort e st' => Abort e st'
      end
  end.

Fixpoint scan_game_paths (game_paths : list string) (st : scan) : outcome scan :=
  match game_paths with
  | [] => Done st
  | game_path :: rest =>
      if negb (path_exists (w_fs (sc_world st)) game_path) then
        scan_game_paths rest st
      else
        match os_listdir (w_fs (sc_world st)) game_path with
        | None => Abort OSError st
        | Some names =>
            match scan_listing game_path names st with
            | Done st' => scan_game_paths rest st'
            | Abort e st' => Abort e st'
            end
        end
  end.

Definition process_folders (game_paths : list string) (games : list row)
    (w : world) : outcome scan :=
  scan_game_paths game_paths (start_scan games w).

(** The states a scan started on table [games0] passes through. *)
Inductive in_scan (games0 : list row) : scan → Prop :=
| in_scan_start w : in_scan games0 (start_scan games0 w)
| in_scan_step st game_path folder_name st' :
    in_scan games0 st →
    scan_folder game_path st folder_name = Done st' →
    in_scan games0 st'.

(** An inserted row: some executable, and a cover path that is empty
    or the first thumbnail of the folder. *)
Definition well_formed_row (r : row) : Prop :=
  json_loads (exe_files r) ≠ []
  ∧ (cover_image r = ""
     ∨ cover_image r = path_join (folder_path r) ["thumb_imgs"; "00.jpg"]).

(** What holds of every state of a scan started on [games0], [news]
    being the rows inserted so far. *)
Definition scan_invariant (games0 : list row) (st : scan) (news : list row)
  : Prop :=
  sc_games st = (games0 ++ news)%list
  ∧ registered_folders st
    = load_registered games0 ∪ list_to_set (map folder_path news)
  ∧ Forall well_formed_row news.

(** ** [GameViewerGUI.scan_complete]: the counts and the message *)



(** The lists a finished scan leaves on the viewer. *)
Definition report_lists (st : scan) : list (list string) :=
  [skipped_folders st; invalid_folders st; no_exe_folders st].

(** The lists of a scan that ended normally. *)
Definition report_of (o : outcome scan) : option (list (list string)) :=
  match o with
  | Done st => Some (report_lists st)
  | Abort _ _ => None
  end.

(** The outcome of one folder, read off the code of [scan_folder]. *)
Inductive classification :=
| NotAFolder
| Skipped
| NoIdentifier
| EnrichmentFailed
| NoExecutable
| Registered
| Crashed.

#[global] Instance classification_eq_dec : EqDecision classification.
Proof. solve_decision. Defined.

(** The names of a classified listing whose outcome is one of [cs]. *)
Definition names_with (cs : list classification)
    (l : list (string * classification)) : list string :=
  map fst (filter (λ nc, nc.2 ∈ cs) l).

Definition classify (game_path : string) (st : scan) (folder_name : string)
  : classification :=
  let folder := folder_of game_path folder_name in
  if negb (path_isdir (w_fs (sc_world st)) folder) then NotAFolder
  else if bool_decide (folder ∈ registered_folders st) then Skipped
  else
    match extract_game_code folder_name with
    | None => NoIdentifier
    | Some code =>
        match scrape_game_info code folder (sc_world st) with
        | (Raise _, _) => Crashed
        | (Return None, _) => EnrichmentFailed
        | (Return (Some _), w) =>
            match exe_list (w_fs w) folder with
            | [] => NoExecutable
            | _ => Registered
            end
        end
    end.

(** The names of a listing with their outcomes, each outcome taken in
    the state the scan has reached when it comes to the name. *)
Fixpoint classify_listing (game_path : string) (names : list string)
    (st : scan) : list (string * classification) :=
  match names with
  | [] => []
  | folder_name :: rest =>
      (folder_name, classify game_path st folder_name)
      :: match scan_folder game_path st folder_name with
         | Done st' => classify_listing game_path rest st'
         | Abort _ _ => []
         end
  end.

(** The rows a scan started on [games0] has inserted so far. *)
Definition new_rows (games0 : list row) (st : scan) : list row :=
  drop (length games0) (sc_games st).

(** ** [GameViewerGUI.image_loader_thread] and the cover request *)

Section Loader.

Context {label : Type}.

Definition task : Type := label * string * (Z * Z).

(** What [self.image_queue.get(timeout=60)] gives. *)
Inductive dequeued :=
| QueueEmpty
| Item (t : option task).

Record loader := {
  (** calls scheduled with [self.window.after(0, ...)], oldest first *)
  delivered : list (label * image);
  (** calls of [self.image_queue.task_done()] *)
  tasks_done : nat;
  (** the loop has left through [break] *)
  stopped : bool
}.

Definition task_done (l : loader) : loader :=
  {| delivered := delivered l; tasks_done := S (tasks_done l);
     stopped := stopped l |}.

Definition deliver (l : loader) (lbl : label) (img : image) : loader :=
  {| delivered := delivered l ++ [(lbl, img)]; tasks_done := tasks_done l;
     stopped := stopped l |}.

(** One turn of the [while True] loop, on the file system of that time. *)
Definition loader_turn (l : loader) (now : fs * dequeued) : loader :=
  let '(f, got) := now in
  if stopped l then l
  else
    match got with
    | QueueEmpty => l
    | Item None =>
        {| delivered := delivered l; tasks_done := tasks_done l;
           stopped := true |}
    | Item (Some (img_label, img_path, size)) =>
        if negb (path_exists f img_path) then task_done l
        else
          match (content ← read_file f img_path;
                 pil_img ← image_open content;
                 resize_image_maintain_aspect pil_img size) with
          | Some pil_img => task_done (deliver l img_label pil_img)
          | None => task_done l
          end
    end.

Definition image_loader_thread (turns : list (fs * dequeued)) (l : loader)
  : loader :=
  fold_left loader_turn turns l.

Definition CARD_IMAGE_SIZE : Z * Z := (250, 180).

(** The end of [create_game_frame]: the request is queued only when the
    cover file exists. *)
Definition request_cover (f : fs) (queue : list task) (img_label : label)
    (game : row) : list task :=
  if path_exists f (cover_image game) then
    queue ++ [(img_label, cover_image game, CARD_IMAGE_SIZE)]
  else queue.

End Loader.

End Program.

(** ** A runtime to compute with

    POSIX paths, a file system held as a list of paths, images that are
    their size, binary64 floats.  The server, the HTML parser and the
    rating decoder are left to the caller. *)

Module Posix.

Inductive node :=
| Dir
| File (content : bytes).

Definition files := list (string * node).

Fixpoint lookup (p : string) (f : files) : option node :=
  match f with
  | [] => None
  | (q, n) :: r => if String.eqb p q then Some n else lookup p r
  end.

Definition exists_ (f : files) (p : string) : bool :=
  match lookup p f with Some _ => true | None => false end.

Definition isdir (f : files) (p : string) : bool :=
  match lookup p f with Some Dir => true | _ => false end.

Fixpoint strip_prefix (p s : string) : option string :=
  match p, s with
  | EmptyString, _ => Some s
  | String a p', String b s' =>
      if Ascii.eqb a b then strip_prefix p' s' else None
  | _, _ => None
  end.

Fixpoint has_slash (s : string) : bool :=
  match s with
  | EmptyString => false
  | String c r => Ascii.eqb c "/" || has_slash r
  end.

(** The name of [key] inside directory [dir], when it lies right there. *)
Definition child_name (dir key : string) : option string :=
  match strip_prefix (dir ++ "/") key with
  | Some (String c r) =>
      if has_slash (String c r) then None else Some (String c r)
  | _ => None
  end.

Definition listdir (f : files) (p : string) : option (list string) :=
  if isdir f p then Some (omap (λ '(k, _), child_name p k) f) else None.

Definition below (top key : string) : bool :=
  String.eqb key top
  || match strip_prefix (top ++ "/") key with Some _ => true | None => false end.

Definition files_in (f : files) (dir : string) : list string :=
  omap (λ '(k, n), match n with File _ => child_name dir k | Dir => None end) f.

Definition walk (f : files) (top : string) : list (string * list string) :=
  if isdir f top then
    omap (λ '(k, n),
            match n with
            | Dir => if below top k then Some (k, files_in f k) else None
            | File _ => None
            end) f
  else [].

(** Creates the last directory; the ones above are taken to exist.
    Fails when the path is a regular file. *)
Definition makedirs (f : files) (p : string) : option files :=
  match lookup p f with
  | Some (File _) => None
  | Some Dir => Some f
  | None => Some (f ++ [(p, Dir)])%list
  end.

Fixpoint write (p : string) (n : node) (f : files) : files :=
  match f with
  | [] => [(p, n)]
  | (q, m) :: r =>
      if String.eqb p q then (p, n) :: r else (q, m) :: write p n r
  end.

Definition read (f : files) (p : string) : option bytes :=
  match lookup p f with Some (File c) => Some c | _ => None end.

(** [posixpath.join] *)
Definition join2 (a b : string) : string :=
  if Str.startswith "/" b then b
  else if negb (nonempty a) || Str.endswith "/" a then a ++ b
  else a ++ "/" ++ b.

Definition join (a : string) (l : list string) : string := fold_left join2 l a.

Fixpoint split_slash (s : string) : list string :=
  match s with
  | EmptyString => [""]
  | String c r =>
      match split_slash r with
      | x :: xs => if Ascii.eqb c "/" then "" :: x :: xs else String c x :: xs
      | [] => [String c ""]
      end
  end.

Definition initial_slashes (path : string) : nat :=
  if Str.startswith "///" path then 1
  else if Str.startswith "//" path then 2
  else if Str.startswith "/" path then 1
  else 0.

(** One component of the loop of [posixpath.normpath]; the stack has
    the last component kept first. *)
Definition collapse (rooted : bool) (stack : list string) (comp : string)
  : list string :=
  if String.eqb comp "" || String.eqb comp "." then stack
  else if negb (String.eqb comp "..")
          || (negb rooted && match stack with [] => true | _ => false end)
          || match stack with top :: _ => String.eqb top ".." | [] => false end
  then comp :: stack
  else match stack with _ :: below => below | [] => [] end.

Fixpoint repeat_slash (n : nat) : string :=
  match n with O => "" | S k => String "/" (repeat_slash k) end.

(** [posixpath.normpath] *)
Definition normpath (path : string) : string :=
  match path with
  | EmptyString => "."
  | _ =>
      let slashes := initial_slashes path in
      let comps :=
        List.rev (fold_left (collapse (0 <? slashes)%nat) (split_slash path) []) in
      match repeat_slash slashes ++ Str.join_with "/" comps with
      | EmptyString => "."
      | p => p
      end
  end.

(** [posixpath.relpath] for a path below [start]. *)
Definition relpath (path start : string) : string :=
  match strip_prefix (start ++ "/") path with
  | Some rest => rest
  | None => path
  end.

(** An image is its size; a file of four bytes holds one, width first,
    each on two bytes. *)
Definition picture : Type := Z * Z.

Definition two_bytes (a b : Byte.byte) : Z :=
  256 * Z.of_N (Strings.Byte.to_N a) + Z.of_N (Strings.Byte.to_N b).

Definition decode (content : bytes) : option picture :=
  match content with
  | [a; b; c; d] =>
      let w := two_bytes a b in
      let h := two_bytes c d in
      if (0 <? w) && (0 <? h) then Some (w, h) else None
  | _ => None
  end.

Definition byte_of (z : Z) : Byte.byte :=
  default Byte.x00 (Strings.Byte.of_N (Z.to_N (z mod 256))).

Definition encode (img : picture) : bytes :=
  let '(w, h) := img in
  [byte_of (w / 256); byte_of w; byte_of (h / 256); byte_of h].

Definition resize (img : picture) (size : Z * Z) : option picture :=
  let '(w, h) := size in
  if (0 <? w) && (0 <? h) then Some size else None.

Definition save (f : files) (img : picture) (p : string) (quality : Z) : files :=
  write p (File (encode img)) f.

Definition float_of_Z (z : Z) : PrimFloat.float :=
  if z <? 0 then PrimFloat.opp (PrimFloat.of_uint63 (Uint63.of_Z (- z)))
  else PrimFloat.of_uint63 (Uint63.of_Z z).

(** [int(x)]: truncation towards zero. *)
Definition Z_of_float (x : PrimFloat.float) : option Z :=
  match FloatOps.Prim2SF x with
  | SpecFloat.S754_zero _ => Some 0
  | SpecFloat.S754_finite s m e =>
      let magnitude :=
        if 0 <=? e then Z.pos m * 2 ^ e else Z.pos m / 2 ^ (- e) in
      Some (if s then - magnitude else magnitude)
  | _ => None
  end.

Definition truediv (a b : Z) : option PrimFloat.float :=
  if b =? 0 then None
  else Some (PrimFloat.div (float_of_Z a) (float_of_Z b)).

Definition div_float (a : Z) (x : PrimFloat.float) : option PrimFloat.float :=
  if PrimFloat.eqb x PrimFloat.zero then None
  else Some (PrimFloat.div (float_of_Z a) x).

Definition mul_float (a : Z) (x : PrimFloat.float) : option PrimFloat.float :=
  Some (PrimFloat.mul (float_of_Z a) x).

Definition is_space (c : ascii) : bool :=
  let n := nat_of_ascii c in
  ((9 <=? n) && (n <=? 13) || (28 <=? n) && (n <=? 32))%nat.

Fixpoint lstrip (s : string) : string :=
  match s with
  | String c r => if is_space c then lstrip r else s
  | EmptyString => EmptyString
  end.

Definition strip (s : string) : string := Str.rev (lstrip (Str.rev (lstrip s))).

Definition runtime
    (server : list string → string → http_result)
    (parse : bytes → soup)
    (rate : bytes → string → option PrimFloat.float) : Runtime :=
  {| path_normpath := normpath;
     path_join := join;
     path_relpath := relpath;
     fs := files;
     path_exists := exists_;
     path_isdir := isdir;
     os_listdir := listdir;
     os_walk := walk;
     os_makedirs := makedirs;
     read_file := read;
     image := picture;
     image_open := decode;
     image_size := λ img, img;
     image_resize := resize;
     image_save := save;
     pyfloat := PrimFloat.float;
     float_zero := PrimFloat.zero;
     int_truediv := truediv;
     int_div_float := div_float;
     int_mul_float := mul_float;
     float_gt := λ x y, PrimFloat.ltb y x;
     int_of_float := Z_of_float;
     requests_get := server;
     html_parse := parse;
     str_strip := strip;
     rate_average_2dp := rate |}.

End Posix.

(** ** Sample worlds *)

Module Sample.

Import Posix.

(** A page with a title, two categories and two image URLs. *)
Definition page_with_images : soup :=
  {| h1_name := Some " Title ";
     maker_name := None;
     category_type := Some [Some "a"; None; Some "b"];
     main_genre := None;
     product_slider_data :=
       Some [Some "//img.x/1.jpg"; None; Some "https://img.x/2.jpg"] |}.

(** A page with a title and nothing else. *)
Definition page_plain : soup :=
  {| h1_name := Some "Title";
     maker_name := None;
     category_type := None;
     main_genre := None;
     product_slider_data := None |}.

(** No request gets through. *)
Definition offline : list string → string → http_result :=
  λ _ _, ConnectionError.

(** The pages and the API answer, the image host does not. *)
Definition pages_only : list string → string → http_result :=
  λ _ url,
    if String.prefix "https://www.dlsite.com/" url then Response 200 []
    else ConnectionError.

(** The image host answers with a picture of 16 by 32. *)
Definition images_only : list string → string → http_result :=
  λ _ url,
    if String.prefix "https://img.x/" url
    then Response 200 [Byte.x00; Byte.x10; Byte.x00; Byte.x20]
    else ConnectionError.

Definition no_rating : bytes → string → option PrimFloat.float :=
  λ _ _, None.

Definition rt_offline : Runtime :=
  runtime offline (λ _, page_plain) no_rating.

Definition rt_plain : Runtime :=
  runtime pages_only (λ _, page_plain) no_rating.

Definition rt_images : Runtime :=
  runtime pages_only (λ _, page_with_images) no_rating.

Definition rt_pictures : Runtime :=
  runtime images_only (λ _, page_plain) no_rating.

(** Two folders, no file in them. *)
Definition disk_empty_folders : files :=
  [("/g", Dir); ("/g/MyGame", Dir); ("/g/RJ1", Dir)].

(** A folder with an executable. *)
Definition disk_game : files :=
  [("/g", Dir); ("/g/RJ1", Dir); ("/g/RJ1/Game.EXE", File [])].

(** A folder where [thumb_imgs] is a regular file. *)
Definition disk_blocked : files :=
  [("/g", Dir); ("/g/RJ1", Dir); ("/g/RJ1/thumb_imgs", File [])].

(** A folder whose first thumbnail is already there. *)
Definition disk_cached : files :=
  [("/g", Dir); ("/g/RJ1", Dir); ("/g/RJ1/thumb_imgs", Dir);
   ("/g/RJ1/thumb_imgs/00.jpg", File [Byte.x01])].

Definition six_urls : list string :=
  ["https://img.x/0.jpg"; "//img.x/1.jpg"; "https://img.x/2.jpg";
   "https://img.x/3.jpg"; "https://img.x/4.jpg"; "https://img.x/5.jpg"].

(** A row of an earlier scan, its path stored with a doubled slash. *)
Definition old_row : @row rt_offline :=
  {| game_code := "RJ1"; title := "Title"; rating := @float_zero rt_offline;
     circle := "Unknown"; work_type := ""; genres := "";
     cover_image := ""; folder_path := "/g//RJ1/";
     exe_files := JsonArray ["Game.EXE"] |}.

(** The four disks as worlds in which no request has been sent yet. *)
Definition two_folders_offline : @world rt_offline :=
  @Build_world rt_offline disk_empty_folders [].

Definition empty_folders_plain : @world rt_plain :=
  @Build_world rt_plain disk_empty_folders [].

Definition game_offline : @world rt_offline :=
  @Build_world rt_offline disk_game [].

Definition game_with_images : @world rt_images :=
  @Build_world rt_images disk_game [].

Definition blocked_with_images : @world rt_images :=
  @Build_world rt_images disk_blocked [].

Definition cached_pictures : @world rt_pictures :=
  @Build_world rt_pictures disk_cached [].

End Sample.

(** * More of the program

    What the sections above leave out of [DLGameViewer2.py]: the state a
    scan ends in, the bound on its requests, the pages and the grid of
    the card view, the duplicate check, the launch of a game and the
    choice of its executable, deletion, manual registration and the list
    of watched folders. *)

Section Program2.

Context `{R : Runtime}.

(** The state a scan ends in, whether it ended normally or not. *)
Definition final_state {A} (o : outcome A) : A :=
  match o with
  | Done a => a
  | Abort _ a => a
  end.

(** [w'] is [w] after at most [n] more requests. *)
Definition sends_at_most (n : nat) (w w' : world) : Prop :=
  ∃ sent, w_requests w' = (w_requests w ++ sent)%list ∧ (length sent ≤ n)%nat.

(** The skipped list of a state, grown by some names. *)
Definition skip_all (st : scan) (names : list string) : scan :=
  fold_left skip names st.

(** The names of a listing that are directories in [f]. *)
Definition directories (f : fs) (game_path : string) (names : list string)
  : list string :=
  filter (λ n, path_isdir f (folder_of game_path n) = true) names.

(** What a scan over [game_paths] meets in [f]: for each game path that
    exists, the names of its listing that are directories. *)
Definition listed_directories (f : fs) (game_paths : list string)
  : list string :=
  flat_map
    (λ game_path,
       if path_exists f game_path
       then directories f game_path (default [] (os_listdir f game_path))
       else [])
    game_paths.

(** The rows inserted so far have distinct paths, none of which was in
    the set loaded from the store. *)
Definition fresh_paths (games0 : list row) (news : list row) : Prop :=
  NoDup (map folder_path news)
  ∧ ∀ r, r ∈ news → folder_path r ∉ load_registered games0.

(** The image requests among what a worker dequeues. *)
Definition is_image_task {label : Type} (got : @dequeued label) : bool :=
  match got with
  | Item (Some _) => true
  | _ => false
  end.

Definition image_tasks {label : Type} (turns : list (fs * @dequeued label))
  : nat :=
  length (filter (λ now, is_image_task now.2 = true) turns).

End Program2.

(** ** The pages of the card view

    [GameViewerGUI.refresh_display], [update_page_controls],
    [prev_page] and [next_page], over the list [all_games] of whatever
    the cards show. *)

Section Pager.

Context {A : Type}.

Definition items_per_page : Z := 20.

(** A bound of a Python slice, as [slice.indices] places it in a
    sequence of length [len]. *)
Definition slice_index (len i : Z) : Z :=
  if i <? 0 then Z.max (i + len) 0 else Z.min i len.

(** [l[start:stop]] *)
Definition py_slice (l : list A) (start stop : Z) : list A :=
  let len := Z.of_nat (length l) in
  let a := slice_index len start in
  let b := slice_index len stop in
  take (Z.to_nat (b - a)) (drop (Z.to_nat a) l).

Record pager := {
  all_games : list A;
  current_page : Z;
  total_pages : Z;
  (** the games that have a card on screen, in the order of the cards *)
  game_frames : list A
}.


Definition update_page_controls (p : pager) (total_items : Z) : pager :=
  let total := Z.max 1 ((total_items + items_per_page - 1) / items_per_page) in
  {| all_games := all_games p;
     current_page := Z.min (current_page p) total;
     total_pages := total;
     game_frames := game_frames p |}.

(** The cards are made from the slice of the page as it is on entry;
    the page controls are brought up to date afterwards. *)
Definition refresh_display (p : pager) : pager :=
  let start_idx := (current_page p - 1) * items_per_page in
  let end_idx := start_idx + items_per_page in
  let current_page_games := py_slice (all_games p) start_idx end_idx in
  update_page_controls
    {| all_games := all_games p; current_page := current_page p;
       total_pages := total_pages p; game_frames := current_page_games |}
    (Z.of_nat (length (all_games p))).

Definition set_page (p : pager) (page : Z) : pager :=
  {| all_games := all_games p; current_page := page;
     total_pages := total_pages p; game_frames := game_frames p |}.

Definition prev_page (p : pager) : pager :=
  if 1 <? current_page p then refresh_display (set_page p (current_page p - 1))
  else p.

Definition next_page (p : pager) : pager :=
  if current_page p <? total_pages p
  then refresh_display (set_page p (current_page p + 1))
  else p.

(** The number of pages [n] items take. *)
Definition pages_for (n : nat) : Z :=
  Z.max 1 ((Z.of_nat n + items_per_page - 1) / items_per_page).

(** The items of page [k], counted from 1. *)
Definition page_items (l : list A) (k : nat) : list A :=
  take 20 (drop ((k - 1) * 20) l).

(** The page controls are up to date with the list. *)
Definition pager_ok (p : pager) : Prop :=
  1 ≤ current_page p ≤ total_pages p
  ∧ total_pages p = pages_for (length (all_games p)).

(** ** The grid of [GameViewerGUI.on_window_configure] *)

Definition frame_width : Z := 340.

Definition grid_columns (window_width : Z) : Z :=
  Z.max 1 (window_width / frame_width).

(** The cell of each frame: [row = i // columns], [col = i % columns]. *)
Definition on_window_configure (window_width : Z) (frames : list A)
  : list (A * (Z * Z)) :=
  let columns := grid_columns window_width in
  map (λ '(i, frame),
         (frame, (Z.of_nat i / columns, Z.of_nat i mod columns)))
      (enumerate frames).

End Pager.

Arguments pager : clear implicits.

(** ** The table with its ids: launching, choosing, deleting

    A row as the viewer reads it back with [SELECT *]: the id first,
    then the columns of [row]. *)

Section Store.

Context `{R : Runtime}.

Record game := {
  game_id : Z;
  game_data : row
}.

Definition with_exe_files (r : row) (exe : json_text) : row :=
  {| game_code := game_code r; title := title r; rating := rating r;
     circle := circle r; work_type := work_type r; genres := genres r;
     cover_image := cover_image r; folder_path := folder_path r;
     exe_files := exe |}.

(** [SELECT exe_files FROM games WHERE id = ?], then [fetchone()] *)
Definition select_exe_files (games : list game) (id : Z) : option json_text :=
  match filter (λ g, game_id g = id) games with
  | [] => None
  | g :: _ => Some (exe_files (game_data g))
  end.

(** [ExeSelectionDialog.on_select]:
    [UPDATE games SET exe_files = ? WHERE id = ?] with the one chosen
    executable. *)
Definition on_select (games : list game) (id : Z) (exe : string) : list game :=
  map (λ g, if bool_decide (game_id g = id)
            then {| game_id := game_id g;
                    game_data := with_exe_files (game_data g) (json_dumps [exe]) |}
            else g)
      games.

(** [GameViewerGUI.run_game].  [pick] is what the user does with the
    selection dialog: the number of the button clicked, or nothing when
    the dialog is closed.  The result is the path handed to
    [os.startfile], if any, and the table. *)
Definition run_game (games : list game) (folder_path : string)
    (exe_files : json_text) (id : Z) (pick : option nat)
  : option string * list game :=
  let exe_files := default exe_files (select_exe_files games id) in
  let exe_list := json_loads exe_files in
  match exe_list with
  | [] => (None, games)
  | [exe] => (Some (path_join folder_path [exe]), games)
  | _ =>
      match pick ≫= (exe_list !!.) with
      | None => (None, games)
      | Some selected_exe =>
          let games' := on_select games id selected_exe in
          if nonempty selected_exe
          then (Some (path_join folder_path [selected_exe]), games')
          else (None, games')
      end
  end.

(** What [delete_game] works on: the disk, the table and the list the
    cards are made from. *)
Record library := {
  lib_fs : fs;
  lib_games : list game;
  lib_pager : pager game
}.

Section Delete.

(** [send2trash(path)]; [None] when it raises. *)
Variable send2trash : fs → string → option fs.

(** [GameViewerGUI.delete_game]; [answer] is the button of the
    confirmation box.  When [send2trash] raises, the [except] clause
    shows a message and nothing else is done; the statements on the
    table are taken to succeed. *)
Definition delete_game (answer : string) (g : game) (s : library) : library :=
  if negb (String.eqb answer "삭제") then s
  else
    let folder := folder_path (game_data g) in
    match (if path_exists (lib_fs s) folder
           then send2trash (lib_fs s) folder
           else Some (lib_fs s)) with
    | None => s
    | Some f =>
        let kept (l : list game) := filter (λ x, game_id x ≠ game_id g) l in
        {| lib_fs := f;
           lib_games := kept (lib_games s);
           lib_pager :=
             refresh_display
               {| all_games := kept (all_games (lib_pager s));
                  current_page := current_page (lib_pager s);
                  total_pages := total_pages (lib_pager s);
                  game_frames := game_frames (lib_pager s) |} |}
    end.

End Delete.

(** ** [GameViewerGUI.check_duplicate_codes] *)

Section Duplicates.

(** The order in which the [GROUP BY] query returns its groups. *)
Variable group_order : list string → list string.




End Duplicates.

(** ** Manual registration: [GameInfoSearchDialog.save_manual_info] *)

Record manual_entries := {
  entry_title : string;
  entry_game_code : string;
  entry_circle : string;
  entry_work_type : string;
  entry_genres : string
}.

(** [list.remove(x)] inside [try ... except ValueError: pass] *)
Fixpoint remove_first (x : string) (l : list string) : list string :=
  match l with
  | [] => []
  | y :: r => if String.eqb y x then r else y :: remove_first x r
  end.

(** [timestamp] is [int(time.time())], [new_id] the id the table gives
    the row, [master_has_viewer] the outcome of
    [hasattr(self.dialog.master, 'viewer')].  [None]: the title is
    blank, a warning is shown and nothing is stored. *)
Definition save_manual_info (entries : manual_entries) (folder : string)
    (downloaded_image_path : option string) (timestamp : nat) (new_id : Z)
    (master_has_viewer : bool) (f : fs) (games : list game)
    (invalid : list string) : option (list game * list string) :=
  let title := str_strip (entry_title entries) in
  if negb (nonempty title) then None
  else
    let game_code := str_strip (entry_game_code entries) in
    let game_code :=
      if negb (nonempty game_code)
      then "MANUAL_" ++ Str.decimal timestamp
      else game_code in
    let circle := str_strip (entry_circle entries) in
    let work_type := str_strip (entry_work_type entries) in
    let genres := str_strip (entry_genres entries) in
    let exe_files := exe_list f folder in
    let cover_image :=
      match downloaded_image_path with
      | Some p => if nonempty p then p else ""
      | None => ""
      end in
    let r :=
      {| game_code := game_code; title := title; rating := float_zero;
         circle := circle; work_type := work_type; genres := genres;
         cover_image := cover_image; folder_path := folder;
         exe_files := json_dumps exe_files |} in
    Some ((games ++ [{| game_id := new_id; game_data := r |}])%list,
          if master_has_viewer then remove_first folder invalid else invalid).

(** ** [GameViewerGUI.process_invalid_folders] *)

Section InvalidFolders.

(** [os.path.basename] *)
Variable path_basename : string → string.

(** The list kept on the viewer, without the paths a row is stored
    under, and the buttons of the dialog; no dialog when nothing is
    left. *)
Definition process_invalid_folders (games : list game) (invalid : list string)
  : list string * option (list (string * string)) :=
  let invalid' :=
    filter (λ p, p ∉ map (λ g, folder_path (game_data g)) games) invalid in
  let listing := map (λ p, (path_basename p, p)) invalid' in
  (invalid', match listing with [] => None | _ => Some listing end).

End InvalidFolders.

(** ** [FolderManagementDialog.add_folder] and [remove_folder] *)

(** [chosen] is what the directory dialog returns, empty when it is
    cancelled. *)
Definition add_folder (chosen : string) (game_paths : list string)
  : list string :=
  if nonempty chosen then
    let folder_path := path_normpath chosen in
    let normalized_paths := map path_normpath game_paths in
    if bool_decide (folder_path ∈ normalized_paths) then game_paths
    else (game_paths ++ [folder_path])%list
  else game_paths.

(** [answer] is the button of the confirmation box, asked for only
    when the index is in range. *)
Definition remove_folder (index : Z) (answer : string)
    (game_paths : list string) : list string :=
  if (0 <=? index) && (index <? Z.of_nat (length game_paths)) then
    if String.eqb answer "제거" then delete (Z.to_nat index) game_paths
    else game_paths
  else game_paths.

End Store.

(** ** A sample table *)

Module Shelf.

Import Posix Sample.

(** Moving to the trash: the path and what is below it go. *)
Definition trash (f : files) (p : string) : option files :=
  Some (List.filter (λ e, negb (String.prefix p e.1)) f).

(** The trash cannot be used. *)
Definition no_trash (f : files) (p : string) : option files := None.

(** A second row for RJ1, with two executables. *)
Definition copy_row : @row rt_offline :=
  {| game_code := "RJ1"; title := "Copy"; rating := @float_zero rt_offline;
     circle := "Unknown"; work_type := ""; genres := "";
     cover_image := ""; folder_path := "/g/RJ1";
     exe_files := JsonArray ["a.exe"; "b.exe"] |}.

Definition other_row : @row rt_offline :=
  {| game_code := "VJ2"; title := "Other"; rating := @float_zero rt_offline;
     circle := "Unknown"; work_type := ""; genres := "";
     cover_image := ""; folder_path := "/nowhere";
     exe_files := JsonArray [] |}.

Definition shelf : list (@game rt_offline) :=
  [ {| game_id := 1; game_data := old_row |};
    {| game_id := 2; game_data := copy_row |};
    {| game_id := 3; game_data := other_row |} ].

Definition shelf_library : @library rt_offline :=
  @Build_library rt_offline disk_game shelf
    {| all_games := shelf; current_page := 1; total_pages := 1;
       game_frames := shelf |}.

(** The form of the manual dialog with a title and nothing else. *)
Definition title_only : manual_entries :=
  {| entry_title := " My game "; entry_game_code := "";
     entry_circle := ""; entry_work_type := ""; entry_genres := "" |}.

End Shelf.
(** * Properties *)

(** ** Identifier extraction *)

Lemma app_cons c a b : String c a ++ b = String c (a ++ b).
Proof. reflexivity. Qed.

Lemma app_nil b : "" ++ b = b.
Proof. reflexivity. Qed.

Lemma take_digits_all s : all_digits (take_digits s) = true.
Proof.
  induction s as [|c r IH]; simpl; [done|].
  destruct (Str.is_digit c) eqn:E; simpl; [by rewrite E | done].
Qed.

Lemma take_digits_prefix s : ∃ post, s = take_digits s ++ post.
Proof.
  induction s as [|c r [post IH]]; simpl.
  - by exists "".
  - destruct (Str.is_digit c).
    + exists post. rewrite app_cons. by f_equal.
    + by exists (String c r).
Qed.

Lemma take_digits_longest ds post :
  all_digits ds = true →
  (String.length ds ≤ String.length (take_digits (ds ++ post)))%nat.
Proof.
  induction ds as [|c r IH]; simpl; [lia|].
  intros [Hc Hr]%andb_true_iff. rewrite Hc. simpl. specialize (IH Hr). lia.
Qed.

Lemma is_RV_spec p : is_RV p = true ↔ (p = "R" ∨ p = "V")%char.
Proof.
  unfold is_RV. rewrite orb_true_iff, !Ascii.eqb_eq. done.
Qed.

Lemma match_here_occurs s c :
  match_here s = Some c →
  occurs_at s 0 c ∧ ∀ c', occurs_at s 0 c' → (String.length c' ≤ String.length c)%nat.
Proof.
  destruct s as [|a [|b r]]; simpl; try done.
  destruct (is_RV a && Ascii.eqb b "J") eqn:E; [|done].
  apply andb_true_iff in E as [Ha Hb]. apply Ascii.eqb_eq in Hb as ->.
  apply is_RV_spec in Ha.
  destruct (take_digits r) as [|d ds] eqn:Ed; [done|].
  intros [= <-]. split.
  - destruct (take_digits_prefix r) as [post Hpost]. rewrite Ed in Hpost.
    exists "", post. split; [simpl; by rewrite Hpost|]. split; [done|].
    exists a, (String d ds). repeat split; try done.
    rewrite <- Ed. apply take_digits_all.
  - intros c' (pre & post & Hs & Hlen & p & ds' & -> & _ & _ & Hds).
    destruct pre; [|done]. simpl in Hs. injection Hs as _ Hr.
    simpl. pose proof (take_digits_longest ds' post Hds) as Hle.
    rewrite <- Hr, Ed in Hle. simpl in Hle. lia.
Qed.

Lemma match_here_none s c : match_here s = None → ¬ occurs_at s 0 c.
Proof.
  intros Hnone (pre & post & Hs & Hlen & p & ds & -> & Hp & Hne & Hds).
  destruct pre; [|done]. rewrite app_nil, !app_cons in Hs. subst s.
  cbn [match_here] in Hnone.
  apply is_RV_spec in Hp. rewrite Hp, Ascii.eqb_refl in Hnone.
  destruct ds as [|d ds]; [done|]. rewrite app_cons in Hnone.
  cbn [all_digits] in Hds. apply andb_true_iff in Hds as [Hd _].
  cbn [andb take_digits] in Hnone. by rewrite Hd in Hnone.
Qed.

Lemma occurs_at_S a r n c : occurs_at (String a r) (S n) c ↔ occurs_at r n c.
Proof.
  split.
  - intros (pre & post & Hs & Hlen & Hc). destruct pre as [|x pre]; [done|].
    simpl in Hs, Hlen. injection Hs as _ Hr. exists pre, post. split; [done|].
    split; [lia | done].
  - intros (pre & post & Hs & Hlen & Hc). exists (String a pre), post.
    simpl. rewrite Hs. repeat split; [by rewrite Hlen | done].
Qed.

Lemma re_search_first s c : re_search s = Some c → first_occurrence s c.
Proof.
  revert c. induction s as [|a r IH]; intros c.
  - done.
  - cbn [re_search]. destruct (match_here (String a r)) as [m|] eqn:E.
    + intros [= ->]. apply match_here_occurs in E as [Hocc Hmax].
      exists 0%nat. split; [done|]. intros n' c' H'. split; [lia|].
      intros ->. by apply Hmax.
    + intros Hr. destruct (IH _ Hr) as (n & Hocc & Hmin).
      exists (S n). split; [by apply occurs_at_S|].
      intros [|n'] c' H'.
      * by apply match_here_none in H'.
      * apply occurs_at_S in H'. destruct (Hmin _ _ H') as [Hle Hlen].
        split; [lia|]. intros [= ->]. by apply Hlen.
Qed.




Lemma extract_code s c : extract_game_code s = Some c → is_code c.
Proof.
  intros H. apply re_search_first in H as (n & (pre & post & _ & _ & Hc) & _).
  exact Hc.
Qed.

Lemma take2_code c : is_code c → Str.take2 c = "RJ" ∨ Str.take2 c = "VJ".
Proof.
  intros (p & ds & -> & [-> | ->] & Hne & _); destruct ds; try done;
    [left | right]; reflexivity.
Qed.

Lemma base_urls_keys : dom base_urls = {["RJ"; "VJ"]}.
Proof. unfold base_urls. rewrite !dom_insert_L, dom_empty_L. set_solver. Qed.

Lemma api_urls_keys : dom api_urls = {["RJ"; "VJ"]}.
Proof. unfold api_urls. rewrite !dom_insert_L, dom_empty_L. set_solver. Qed.

Lemma base_urls_code c : is_code c → is_Some (base_urls !! Str.take2 c).
Proof.
  intros H. apply elem_of_dom. rewrite base_urls_keys.
  destruct (take2_code c H) as [-> | ->]; set_solver.
Qed.

Lemma api_urls_code c : is_code c → is_Some (api_urls !! Str.take2 c).
Proof.
  intros H. apply elem_of_dom. rewrite api_urls_keys.
  destruct (take2_code c H) as [-> | ->]; set_solver.
Qed.

Section Scrape.

Context `{R : Runtime}.

Lemma scrape_game_info_returns code folder w :
  is_Some (base_urls !! Str.take2 code) →
  ∃ info w', scrape_game_info code folder w = (Return info, w').
Proof.
  intros [t Ht]. unfold scrape_game_info. rewrite Ht.
  destruct (scrape_page code folder (Str.format1 t code) w) as [info w'].
  eauto.
Qed.

Lemma scan_folder_done game_path st folder_name :
  ∃ st', scan_folder game_path st folder_name = Done st'.
Proof.
  unfold scan_folder.
  destruct (negb _); [eauto|]. destruct (bool_decide _); [eauto|].
  destruct (extract_game_code folder_name) as [code|] eqn:E; [|eauto].
  destruct (scrape_game_info_returns code (folder_of game_path folder_name)
              (sc_world st)) as (info & w' & ->).
  { apply base_urls_code. by apply extract_code in E. }
  destruct info as [info|]; [|eauto].
  destruct (json_loads _); eauto.
Qed.

(** C9: both tables have the keys RJ and VJ and no other; an identifier
    the extractor produced starts with one of them, so both lookups
    succeed, [scrape_game_info] raises no KeyError and the scan of the
    folder ends normally. *)
Theorem extracted_prefix_is_registered :
  (dom base_urls = {["RJ"; "VJ"]} ∧ dom api_urls = {["RJ"; "VJ"]})
  ∧ ∀ folder_name code,
      extract_game_code folder_name = Some code →
      (Str.take2 code = "RJ" ∨ Str.take2 code = "VJ")
      ∧ is_Some (base_urls !! Str.take2 code)
      ∧ is_Some (api_urls !! Str.take2 code)
      ∧ (∀ folder w, ∃ info w',
           scrape_game_info code folder w = (Return info, w'))
      ∧ (∀ game_path st, ∃ st',
           scan_folder game_path st folder_name = Done st').
Proof.
  split; [split; [apply base_urls_keys | apply api_urls_keys]|].
  intros folder_name code H. pose proof (extract_code _ _ H) as Hc.
  split; [by apply take2_code|].
  split; [by apply base_urls_code|].
  split; [by apply api_urls_code|].
  split.
  - intros folder w. apply scrape_game_info_returns. by apply base_urls_code.
  - intros game_path st. apply scan_folder_done.
Qed.

End Scrape.

(** ** The scan of one folder *)

Section Scan.

Context `{R : Runtime}.

Lemma loads_dumps l : json_loads (json_dumps l) = l.
Proof. reflexivity. Qed.

Lemma cover_image_of_some urls code folder w c w' :
  cover_image_of urls code folder w = (Some c, w') →
  c = match urls with
      | [] => ""
      | _ => path_join folder ["thumb_imgs"; "00.jpg"]
      end.
Proof.
  unfold cover_image_of. destruct urls as [|u urls]; [congruence|].
  destruct (os_makedirs _ _) as [f|]; [|congruence].
  destruct (path_exists _ _); [congruence|].
  destruct (download_images _ _ _ _); congruence.
Qed.

Lemma scrape_game_info_cover code folder w info w' :
  scrape_game_info code folder w = (Return (Some info), w') →
  gi_cover_image info = ""
  ∨ gi_cover_image info = path_join folder ["thumb_imgs"; "00.jpg"].
Proof.
  unfold scrape_game_info. destruct (base_urls !! _) as [t|]; [|congruence].
  unfold scrape_page, http.
  destruct (requests_get _ _) as [|status content]; [congruence|].
  destruct (raises_for_status status); [congruence|].
  destruct (h1_name _); [|congruence].
  destruct (get_rating _ _) as [x w2].
  destruct (cover_image_of _ _ _ _) as [[c|] w3] eqn:E; [|congruence].
  intros [= <- _]. cbn. apply cover_image_of_some in E.
  destruct (image_urls_of _); auto.
Qed.

(** What [scan_folder] does, by the outcome of the folder. *)
Lemma scan_folder_classify game_path st folder_name :
  let folder := folder_of game_path folder_name in
  match classify game_path st folder_name with
  | NotAFolder => scan_folder game_path st folder_name = Done st
  | Skipped => scan_folder game_path st folder_name = Done (skip st folder_name)
  | NoIdentifier =>
      scan_folder game_path st folder_name
      = Done (mark_invalid st (sc_world st) folder)
  | EnrichmentFailed =>
      ∃ w, scan_folder game_path st folder_name = Done (mark_invalid st w folder)
  | NoExecutable =>
      ∃ w, scan_folder game_path st folder_name = Done (mark_no_exe st w folder_name)
  | Registered =>
      ∃ w r, scan_folder game_path st folder_name = Done (register st w r)
             ∧ folder_path r = folder
             ∧ json_loads (exe_files r) ≠ []
             ∧ (cover_image r = ""
                ∨ cover_image r = path_join folder ["thumb_imgs"; "00.jpg"])
  | Crashed => False
  end.
Proof.
  intros folder. unfold classify, scan_folder. fold folder.
  destruct (negb _); [done|]. destruct (bool_decide _); [done|].
  destruct (extract_game_code folder_name) as [code|] eqn:E; [|done].
  destruct (scrape_game_info_returns code folder (sc_world st))
    as (info & w' & Hs).
  { apply base_urls_code. by apply extract_code in E. }
  rewrite Hs. destruct info as [info|]; [|eauto].
  unfold get_exe_files. rewrite loads_dumps.
  destruct (exe_list (w_fs w') folder) as [|e es] eqn:Hexe; [eauto|].
  exists w', (new_row info folder (json_dumps (e :: es))).
  split; [done|]. split; [done|]. split; [done|].
  exact (scrape_game_info_cover _ _ _ _ _ Hs).
Qed.

Lemma scan_folder_invariant games0 st news game_path folder_name st' :
  scan_invariant games0 st news →
  scan_folder game_path st folder_name = Done st' →
  ∃ news', scan_invariant games0 st' news'.
Proof.
  intros (Hg & Hr & Hf) Hstep.
  pose proof (scan_folder_classify game_path st folder_name) as Hc.
  cbn zeta in Hc.
  destruct (classify game_path st folder_name).
  - rewrite Hc in Hstep. injection Hstep as <-. by exists news.
  - rewrite Hc in Hstep. injection Hstep as <-. by exists news.
  - rewrite Hc in Hstep. injection Hstep as <-. by exists news.
  - destruct Hc as [w Hc]. rewrite Hc in Hstep. injection Hstep as <-.
    by exists news.
  - destruct Hc as [w Hc]. rewrite Hc in Hstep. injection Hstep as <-.
    by exists news.
  - destruct Hc as (w & r & Hc & Hp & He & Hcov). rewrite Hc in Hstep.
    injection Hstep as <-. exists (news ++ [r])%list. split; [|split].
    + cbn. rewrite Hg. by rewrite <- app_assoc.
    + cbn. rewrite Hr, map_app, list_to_set_app_L. cbn.
      by rewrite (right_id_L ∅ (∪)), (assoc_L (∪)).
    + apply Forall_app. split; [done|]. apply Forall_singleton.
      split; [done|]. by rewrite Hp.
  - done.
Qed.

Lemma in_scan_invariant games0 st :
  in_scan games0 st → scan_invariant games0 st (new_rows games0 st).
Proof.
  intros H.
  assert (∃ news, scan_invariant games0 st news) as [news Hn].
  { induction H as [w | st gp n st' _ [news IH] Hstep].
    - exists []. split; [|split].
      + cbn. by rewrite app_nil_r.
      + cbn. set_solver.
      + constructor.
    - by eapply scan_folder_invariant. }
  replace (new_rows games0 st) with news; [done|].
  destruct Hn as (Hg & _). unfold new_rows. rewrite Hg.
  by rewrite drop_app_length.
Qed.

Lemma scan_listing_in_scan games0 game_path names st st' :
  in_scan games0 st → scan_listing game_path names st = Done st' →
  in_scan games0 st'.
Proof.
  revert st. induction names as [|n names IH]; intros st Hin; cbn.
  - by intros [= <-].
  - destruct (scan_folder game_path st n) as [st1|e st1] eqn:E; [|done].
    apply IH. by eapply in_scan_step.
Qed.

Lemma scan_game_paths_in_scan games0 game_paths st st' :
  in_scan games0 st → scan_game_paths game_paths st = Done st' →
  in_scan games0 st'.
Proof.
  revert st. induction game_paths as [|gp gps IH]; intros st Hin; cbn.
  - by intros [= <-].
  - destruct (negb _); [by apply IH|].
    destruct (os_listdir _ _) as [names|]; [|done].
    destruct (scan_listing gp names st) as [st1|e st1] eqn:E; [|done].
    apply IH. by eapply scan_listing_in_scan.
Qed.

(** The state [process_folders] ends in is a state of the scan. *)
Lemma process_folders_in_scan game_paths games w st :
  process_folders game_paths games w = Done st → in_scan games st.
Proof. apply scan_game_paths_in_scan, in_scan_start. Qed.

Lemma in_scan_loaded games0 st :
  in_scan games0 st → load_registered games0 ⊆ registered_folders st.
Proof.
  intros H. apply in_scan_invariant in H as (_ & -> & _). set_solver.
Qed.

Lemma elem_of_load_registered games p :
  p ∈ load_registered games
  ↔ ∃ r, r ∈ games ∧ p = path_normpath (folder_path r).
Proof.
  unfold load_registered. rewrite elem_of_list_to_set, list_elem_of_fmap.
  naive_solver.
Qed.

(** C1: a folder whose normalized path is the normalized path of a row
    the store held when the scan started is skipped: its name goes to
    the skipped list and nothing else changes, so no request is sent, no
    file is touched and no row is inserted. *)
Theorem registered_folder_is_skipped games0 st game_path folder_name r :
  in_scan games0 st →
  path_isdir (w_fs (sc_world st))
    (path_normpath (path_join game_path [folder_name])) = true →
  r ∈ games0 →
  path_normpath (path_join game_path [folder_name])
  = path_normpath (folder_path r) →
  classify game_path st folder_name = Skipped
  ∧ ∃ st', scan_folder game_path st folder_name = Done st'
      ∧ skipped_folders st' = (skipped_folders st ++ [folder_name])%list
      ∧ sc_world st' = sc_world st
      ∧ sc_games st' = sc_games st
      ∧ registered_folders st' = registered_folders st
      ∧ invalid_folders st' = invalid_folders st
      ∧ no_exe_folders st' = no_exe_folders st.
Proof.
  intros Hin Hdir Hr Hp.
  assert (folder_of game_path folder_name ∈ registered_folders st) as Hreg.
  { apply (in_scan_loaded _ _ Hin). apply elem_of_load_registered.
    exists r. by split. }
  assert (classify game_path st folder_name = Skipped) as Hc.
  { unfold classify. fold (folder_of game_path folder_name) in Hdir.
    rewrite Hdir. cbn. by rewrite bool_decide_eq_true_2. }
  split; [done|].
  pose proof (scan_folder_classify game_path st folder_name) as Hs.
  rewrite Hc in Hs. exists (skip st folder_name). by repeat split.
Qed.

(** *** Requests are only ever added *)

Lemma get_rating_requests code w :
  w_requests w `prefix_of` w_requests (get_rating code w).2.
Proof.
  unfold get_rating, http. destruct (api_urls !! _) as [t|]; [|done].
  destruct (requests_get _ _) as [|status content]; cbn;
    [by apply prefix_app_r|].
  destruct (raises_for_status status); cbn; [by apply prefix_app_r|].
  destruct (rate_average_2dp _ _); by apply prefix_app_r.
Qed.

Lemma fetch_image_requests url img_path w :
  w_requests (fetch_image url img_path w) = (w_requests w ++ [url])%list.
Proof.
  unfold fetch_image, http.
  destruct (requests_get _ _) as [|status content]; [done|].
  destruct (raises_for_status status); [done|].
  by destruct (_ ≫= _).
Qed.

Lemma download_one_requests thumb_dir w item :
  w_requests w `prefix_of` w_requests (download_one thumb_dir w item).
Proof.
  destruct item as [idx url]. unfold download_one.
  destruct (path_exists _ _); [done|].
  rewrite fetch_image_requests. by apply prefix_app_r.
Qed.

Lemma download_loop_requests thumb_dir items w :
  w_requests w `prefix_of` w_requests (fold_left (download_one thumb_dir) items w).
Proof.
  revert w. induction items as [|item items IH]; intros w; [done|].
  cbn. etrans; [apply download_one_requests | apply IH].
Qed.

Lemma download_images_requests urls code folder w w' :
  download_images urls code folder w = Some w' →
  w_requests w `prefix_of` w_requests w'.
Proof.
  unfold download_images. destruct (os_makedirs _ _) as [f|]; [|done].
  intros [= <-]. apply (download_loop_requests _ _ (with_fs w f)).
Qed.

Lemma cover_image_of_requests urls code folder w :
  w_requests w `prefix_of` w_requests (cover_image_of urls code folder w).2.
Proof.
  unfold cover_image_of. destruct urls as [|u urls]; [done|].
  destruct (os_makedirs _ _) as [f|]; [|done].
  destruct (path_exists _ _); [done|].
  destruct (download_images _ _ _ _) as [w2|] eqn:E; [|done].
  by apply download_images_requests in E.
Qed.

Lemma scrape_page_requests code folder url w :
  (w_requests w ++ [url])%list
    `prefix_of` w_requests (scrape_page code folder url w).2.
Proof.
  unfold scrape_page, http.
  destruct (requests_get _ _) as [|status content]; [done|].
  destruct (raises_for_status status); [done|].
  destruct (h1_name _); [|done].
  destruct (get_rating _ _) as [x w2] eqn:Er.
  pose proof (get_rating_requests code
    {| w_fs := w_fs w; w_requests := w_requests w ++ [url] |}) as H1.
  rewrite Er in H1. cbn in H1.
  pose proof (cover_image_of_requests
    (image_urls_of (html_parse content)) code folder w2) as H2.
  destruct (cover_image_of _ _ _ _) as [[c|] w3]; cbn in *; by etrans.
Qed.

Lemma filter_none {A} (P : A → Prop) `{∀ x, Decision (P x)} (l : list A) :
  (∀ x, x ∈ l → ¬ P x) → filter P l = [].
Proof.
  induction l as [|a l IH]; intros Hl; [done|].
  rewrite filter_cons, decide_False by (apply Hl; left).
  apply IH. intros x Hx. apply Hl. by right.
Qed.

Lemma exe_list_nil f folder :
  (∀ root files file,
     (root, files) ∈ os_walk f folder → file ∈ files → is_exe file = false) →
  exe_list f folder = [].
Proof.
  unfold exe_list. induction (os_walk f folder) as [|[root files] l IH];
    intros H; [done|].
  cbn. rewrite IH.
  - rewrite app_nil_r, filter_none; [done|]. intros file Hf.
    rewrite (H root files file); [done | left | done].
  - intros root' files' file Hin. apply (H root' files' file). by right.
Qed.

Lemma new_rows_have_executables games0 st :
  in_scan games0 st →
  Forall (λ r, json_loads (exe_files r) ≠ []) (new_rows games0 st).
Proof.
  intros (_ & _ & Hwf)%in_scan_invariant.
  eapply Forall_impl; [exact Hwf|]. by intros r [? _].
Qed.

(** A path the scan has not registered is not in the store it leaves,
    the paths it stored being normalized. *)
Lemma unregistered_is_not_stored games0 st p :
  in_scan games0 st →
  p ∉ registered_folders st →
  Forall (λ r, path_normpath (folder_path r) = folder_path r)
         (new_rows games0 st) →
  p ∉ load_registered (sc_games st).
Proof.
  intros (Hg & Hr & _)%in_scan_invariant Hnew Hidem.
  intros (r & Hr' & Hp)%elem_of_load_registered.
  rewrite Hg in Hr'. apply elem_of_app in Hr' as [H0 | Hn]; apply Hnew;
    rewrite Hr.
  - apply elem_of_union_l, elem_of_load_registered. eauto.
  - apply elem_of_union_r.
    rewrite elem_of_list_to_set, list_elem_of_fmap. exists r.
    split; [|done]. rewrite Forall_forall in Hidem.
    by rewrite Hp, (Hidem r Hn).
Qed.

(** A folder with an identifier whose path is not in the set is not
    skipped: its page is requested. *)
Lemma unregistered_folder_is_visited game_path st folder_name code :
  let folder := folder_of game_path folder_name in
  path_isdir (w_fs (sc_world st)) folder = true →
  folder ∉ registered_folders st →
  extract_game_code folder_name = Some code →
  classify game_path st folder_name ≠ Skipped
  ∧ ∃ template st',
      base_urls !! Str.take2 code = Some template
      ∧ scan_folder game_path st folder_name = Done st'
      ∧ skipped_folders st' = skipped_folders st
      ∧ (w_requests (sc_world st) ++ [Str.format1 template code])%list
          `prefix_of` w_requests (sc_world st').
Proof.
  intros folder Hdir Hnot Hcode. split.
  { unfold classify. fold folder. rewrite Hdir. cbn [negb].
    rewrite bool_decide_eq_false_2 by done. rewrite Hcode.
    destruct (scrape_game_info code folder (sc_world st)) as [[[i|]|e] w3];
      try done. by destruct (exe_list (w_fs w3) folder). }
  destruct (base_urls_code code) as [template Ht].
  { by apply extract_code in Hcode. }
  exists template.
  assert (∃ x, scrape_game_info code folder (sc_world st)
               = (Return x, (scrape_page code folder
                               (Str.format1 template code) (sc_world st)).2))
    as [x Hx].
  { unfold scrape_game_info. rewrite Ht.
    destruct (scrape_page _ _ _ _) as [i w3]. by exists i. }
  pose proof (scrape_page_requests code folder
                (Str.format1 template code) (sc_world st)) as Hreq.
  unfold scan_folder. fold folder.
  rewrite Hdir. cbn [negb]. rewrite bool_decide_eq_false_2 by done.
  rewrite Hcode, Hx.
  destruct x as [i|]; [|by eexists].
  destruct (json_loads _); by eexists.
Qed.

(** C2, as the code has it.  No row the scan inserts has an empty list
    of executables.  A folder that is not in the store yet, has an
    identifier, whose metadata fetch succeeds and that holds no file
    ending in .exe is classified NoExecutable: its name goes to the
    no-executable list, no row is inserted and its path is not added to
    the set.  A later scan started on the store of a scan that never
    registered the path (the paths it stored being normalized) does not
    skip the folder: it requests its page again. *)
Theorem no_executable_is_not_persisted :
  (∀ games0 st,
     in_scan games0 st →
     Forall (λ r, json_loads (exe_files r) ≠ []) (new_rows games0 st))
  ∧ (∀ games0 st game_path folder_name code info w,
       let folder := path_normpath (path_join game_path [folder_name]) in
       in_scan games0 st →
       path_isdir (w_fs (sc_world st)) folder = true →
       folder ∉ registered_folders st →
       extract_game_code folder_name = Some code →
       scrape_game_info code folder (sc_world st) = (Return (Some info), w) →
       (∀ root files file,
          (root, files) ∈ os_walk (w_fs w) folder → file ∈ files →
          is_exe file = false) →
       classify game_path st folder_name = NoExecutable
       ∧ ∃ st', scan_folder game_path st folder_name = Done st'
           ∧ no_exe_folders st' = (no_exe_folders st ++ [folder_name])%list
           ∧ sc_games st' = sc_games st
           ∧ registered_folders st' = registered_folders st
           ∧ skipped_folders st' = skipped_folders st
           ∧ invalid_folders st' = invalid_folders st
           ∧ in_scan games0 st'
           ∧ folder ∉ registered_folders st')
  ∧ (∀ games0 st game_path folder_name code w2,
       let folder := path_normpath (path_join game_path [folder_name]) in
       in_scan games0 st →
       folder ∉ registered_folders st →
       Forall (λ r, path_normpath (folder_path r) = folder_path r)
              (new_rows games0 st) →
       extract_game_code folder_name = Some code →
       path_isdir (w_fs w2) folder = true →
       let again := start_scan (sc_games st) w2 in
       classify game_path again folder_name ≠ Skipped
       ∧ ∃ template st2,
           base_urls !! Str.take2 code = Some template
           ∧ scan_folder game_path again folder_name = Done st2
           ∧ skipped_folders st2 = []
           ∧ (w_requests w2 ++ [Str.format1 template code])%list
               `prefix_of` w_requests (sc_world st2)).
Proof.
  split; [apply new_rows_have_executables|]. split.
  - intros games0 st game_path folder_name code info w folder
      Hin Hdir Hnew Hcode Hscrape Hnoexe.
    fold (folder_of game_path folder_name) in folder.
    assert (exe_list (w_fs w) folder = []) as Hexe by by apply exe_list_nil.
    assert (classify game_path st folder_name = NoExecutable) as Hc.
    { unfold classify. fold folder. rewrite Hdir. cbn [negb].
      rewrite bool_decide_eq_false_2 by done.
      by rewrite Hcode, Hscrape, Hexe. }
    split; [done|].
    assert (scan_folder game_path st folder_name
            = Done (mark_no_exe st w folder_name)) as Hstep.
    { unfold scan_folder. fold folder. rewrite Hdir. cbn [negb].
      rewrite bool_decide_eq_false_2 by done.
      rewrite Hcode, Hscrape. unfold get_exe_files.
      by rewrite loads_dumps, Hexe. }
    exists (mark_no_exe st w folder_name).
    do 6 (split; [done|]). split; [|done]. by eapply in_scan_step.
  - intros games0 st game_path folder_name code w2 folder
      Hin Hnew Hidem Hcode Hdir again.
    fold (folder_of game_path folder_name) in folder.
    apply (unregistered_folder_is_visited game_path again folder_name code);
      [done | | done].
    by apply (unregistered_is_not_stored games0).
Qed.

(** *** The three lists of the report *)

Lemma names_with_cons cs n c l :
  names_with cs ((n, c) :: l)
  = ((if decide (c ∈ cs) then [n] else []) ++ names_with cs l)%list.
Proof.
  unfold names_with. rewrite filter_cons. cbn. by destruct (decide (c ∈ cs)).
Qed.



(** *** The cover image of an inserted row *)

Lemma new_rows_cover games0 st :
  in_scan games0 st →
  Forall (λ r, cover_image r = ""
               ∨ cover_image r
                 = path_join (folder_path r) ["thumb_imgs"; "00.jpg"])
         (new_rows games0 st).
Proof.
  intros (_ & _ & Hwf)%in_scan_invariant.
  eapply Forall_impl; [exact Hwf|]. by intros r [_ ?].
Qed.

Lemma scrape_page_cover code folder url w info w' :
  scrape_page code folder url w = (Some info, w') →
  ∃ status content,
    requests_get (w_requests w) url = Response status content
    ∧ gi_cover_image info
      = match image_urls_of (html_parse content) with
        | [] => ""
        | _ => path_join folder ["thumb_imgs"; "00.jpg"]
        end.
Proof.
  unfold scrape_page, http.
  destruct (requests_get _ _) as [|status content]; [congruence|].
  destruct (raises_for_status status); [congruence|].
  destruct (h1_name _); [|congruence].
  destruct (get_rating _ _) as [x w2].
  destruct (cover_image_of _ _ _ _) as [[c|] w3] eqn:E; [|congruence].
  intros [= <- _]. exists status, content. split; [done|]. cbn.
  by apply cover_image_of_some in E.
Qed.

Lemma request_cover_missing {label : Type} f (queue : list (@task label))
    img_label game :
  path_exists f (cover_image game) = false →
  request_cover f queue img_label game = queue.
Proof. unfold request_cover. by intros ->. Qed.

End Scan.

(** ** Metadata fetch *)

Section Metadata.

Context `{R : Runtime}.

Lemma get_rating_fs code w : w_fs (get_rating code w).2 = w_fs w.
Proof.
  unfold get_rating, http. destruct (api_urls !! _) as [t|]; [|done].
  destruct (requests_get _ _) as [|status content]; [done|].
  destruct (raises_for_status status); [done|].
  by destruct (rate_average_2dp _ _).
Qed.

(** The rating is 0.0 unless the whole chain of the API call worked. *)
Lemma get_rating_degrades code w :
  (get_rating code w).1 = float_zero
  ∨ ∃ template status content,
      api_urls !! Str.take2 code = Some template
      ∧ requests_get (w_requests w) (Str.format1 template code)
        = Response status content
      ∧ raises_for_status status = false
      ∧ rate_average_2dp content code = Some (get_rating code w).1.
Proof.
  unfold get_rating, http. destruct (api_urls !! _) as [t|]; [|by left].
  destruct (requests_get _ _) as [|status content] eqn:Er; [by left|].
  destruct (raises_for_status status) eqn:Es; [by left|].
  destruct (rate_average_2dp _ _) as [x|] eqn:Ex; [|by left].
  right. exists t, status, content. by rewrite Er.
Qed.

Lemma cover_image_of_none urls code folder w :
  (cover_image_of urls code folder w).1 = None
  ↔ urls ≠ [] ∧ cache_dir_fails folder (w_fs w).
Proof.
  unfold cover_image_of, cache_dir_fails, download_images.
  destruct urls as [|u urls]; [naive_solver|].
  destruct (os_makedirs (w_fs w) _) as [f|] eqn:E1; cbn; [|naive_solver].
  destruct (path_exists f _) eqn:E2; cbn; [naive_solver|].
  destruct (os_makedirs f _) as [f2|] eqn:E3; cbn; naive_solver.
Qed.

Lemma work_type_default page :
  category_type page = None → work_type_of page = "".
Proof. unfold work_type_of. by intros ->. Qed.

Lemma genres_default page : main_genre page = None → genres_of page = "".
Proof. unfold genres_of. by intros ->. Qed.

Lemma image_urls_default page :
  product_slider_data page = None → image_urls_of page = [].
Proof. unfold image_urls_of. by intros ->. Qed.

(** C6, as the code has it: [scrape_game_info] returns None exactly
    when the page request raised or came back with a 4xx or 5xx status,
    or the title element is missing, or the page lists an image and the
    thumbnail directory cannot be created.  Otherwise it returns the
    record: the rating is what [get_rating] gives, 0.0 unless the API
    call and its decoding all worked; a missing maker gives "Unknown";
    missing category, genre and image blocks give empty values. *)
Theorem scrape_game_info_fails_iff code folder w template :
  base_urls !! Str.take2 code = Some template →
  let url := Str.format1 template code in
  let r := requests_get (w_requests w) url in
  let w1 := (http url w).2 in
  ((scrape_game_info code folder w).1 = Return None
   ↔ fetch_failed r = true
     ∨ (∃ page, page_of r = Some page ∧ h1_name page = None)
     ∨ (∃ page, page_of r = Some page ∧ is_Some (h1_name page)
                ∧ image_urls_of page ≠ []
                ∧ cache_dir_fails folder (w_fs w)))
  ∧ (∀ info, (scrape_game_info code folder w).1 = Return (Some info) →
       ∃ page h1,
         page_of r = Some page ∧ h1_name page = Some h1
         ∧ gi_game_code info = code
         ∧ gi_title info = str_strip h1
         ∧ gi_rating info = (get_rating code w1).1
         ∧ gi_circle info
           = match maker_name page with
             | Some t => str_strip t
             | None => "Unknown"
             end
         ∧ gi_work_type info = work_type_of page
         ∧ gi_genres info = genres_of page
         ∧ gi_cover_image info
           = match image_urls_of page with
             | [] => ""
             | _ => path_join folder ["thumb_imgs"; "00.jpg"]
             end)
  ∧ ((get_rating code w1).1 = float_zero
     ∨ ∃ api status content,
         api_urls !! Str.take2 code = Some api
         ∧ requests_get (w_requests w1) (Str.format1 api code)
           = Response status content
         ∧ raises_for_status status = false
         ∧ rate_average_2dp content code = Some (get_rating code w1).1)
  ∧ (∀ page,
       (category_type page = None → work_type_of page = "")
       ∧ (main_genre page = None → genres_of page = "")
       ∧ (product_slider_data page = None → image_urls_of page = [])).
Proof.
  intros Ht url r w1.
  split; [|split; [|split]].
  - unfold scrape_game_info. rewrite Ht. fold url.
    unfold scrape_page, http. fold r. unfold fetch_failed, page_of.
    destruct r as [|status content]; cbn; [naive_solver|].
    destruct (raises_for_status status); cbn; [naive_solver|].
    destruct (h1_name (html_parse content)) as [h1|] eqn:Eh; cbn;
      [|naive_solver].
    destruct (get_rating code _) as [x w2] eqn:Er.
    pose proof (get_rating_fs code
      {| w_fs := w_fs w; w_requests := (w_requests w ++ [url])%list |}) as Hfs.
    rewrite Er in Hfs. cbn in Hfs.
    pose proof (cover_image_of_none (image_urls_of (html_parse content))
                  code folder w2) as Hcov.
    rewrite Hfs in Hcov.
    destruct (cover_image_of _ _ _ _) as [[c|] w3]; cbn in *.
    + split; [done|]. intros [? | [(page & [= <-] & Hn) | (page & [= <-] & _ & Hu & Hf)]];
        [done | congruence |].
      destruct Hcov as [_ Hcov]. by specialize (Hcov (conj Hu Hf)).
    + split; [|done]. intros _. right; right. exists (html_parse content).
      destruct Hcov as [[Hu Hf] _]; [done|]. rewrite Eh. eauto.
  - intros info. unfold scrape_game_info. rewrite Ht. fold url.
    destruct (scrape_page code folder url w) as [i w'] eqn:Es. cbn.
    intros [= ->]. revert Es. unfold scrape_page, http. fold r.
    unfold page_of. destruct r as [|status content]; [congruence|].
    destruct (raises_for_status status); [congruence|].
    destruct (h1_name (html_parse content)) as [h1|] eqn:Eh; [|congruence].
    subst w1. unfold http. cbn [snd].
    destruct (get_rating code _) as [x w2] eqn:Er.
    destruct (cover_image_of _ _ _ _) as [[c|] w3] eqn:Ec; [|congruence].
    intros [= <- _]. exists (html_parse content), h1. cbn.
    apply cover_image_of_some in Ec. by rewrite Eh.
  - apply get_rating_degrades.
  - intros page. split; [apply work_type_default|].
    split; [apply genres_default | apply image_urls_default].
Qed.

End Metadata.

(** ** Thumbnail download *)


Section Thumbnails.

Context `{R : Runtime}.

Lemma same_at_refl p f : same_at p f f.
Proof. done. Qed.




Variable thumb_dir : string.

(** Saving one thumbnail leaves the other four as they were. *)
Hypothesis save_elsewhere : ∀ f img i j,
  (i < 5)%nat → (j < 5)%nat → i ≠ j →
  same_at (thumb_path thumb_dir j) f
          (image_save f img (thumb_path thumb_dir i) 50).



End Thumbnails.


(** ** The image loader *)

Section ImageLoader.

Context `{R : Runtime} {label : Type}.

Lemma image_loader_thread_app (pre post : list (fs * @dequeued label)) l :
  image_loader_thread (pre ++ post) l
  = image_loader_thread post (image_loader_thread pre l).
Proof. unfold image_loader_thread. apply fold_left_app. Qed.

Lemma loader_turn_task_done (l : loader) (now : fs * @dequeued label) :
  loader_turn (task_done l) now = task_done (loader_turn l now).
Proof.
  destruct now as [f [|[[[lbl p] size]|]]]; unfold loader_turn; cbn;
    destruct (stopped l); try done.
  destruct (negb (path_exists f p)); [done|].
  by destruct (_ ≫= _).
Qed.

Lemma image_loader_thread_task_done (turns : list (fs * @dequeued label)) l :
  image_loader_thread turns (task_done l)
  = task_done (image_loader_thread turns l).
Proof.
  revert l. induction turns as [|now turns IH]; intros l; [done|].
  cbn. rewrite loader_turn_task_done. apply IH.
Qed.

(** C8: when the worker takes a request whose file does not exist, it
    marks the task done, schedules no delivery, goes through no
    exception handler and stays in its loop: the requests that follow
    are processed as if this one had never been queued, but for the
    count of finished tasks. *)
Theorem missing_file_is_dropped
    (pre post : list (fs * @dequeued label)) (l0 : loader)
    (f : fs) (img_label : label) (img_path : string) (size : Z * Z) :
  let l := image_loader_thread pre l0 in
  stopped l = false →
  path_exists f img_path = false →
  loader_turn l (f, Item (Some (img_label, img_path, size))) = task_done l
  ∧ delivered (loader_turn l (f, Item (Some (img_label, img_path, size))))
    = delivered l
  ∧ stopped (loader_turn l (f, Item (Some (img_label, img_path, size))))
    = false
  ∧ image_loader_thread
      (pre ++ (f, Item (Some (img_label, img_path, size))) :: post) l0
    = task_done (image_loader_thread (pre ++ post) l0).
Proof.
  intros l Hrun Hmiss.
  assert (loader_turn l (f, Item (Some (img_label, img_path, size)))
          = task_done l) as Hturn.
  { unfold loader_turn. by rewrite Hrun, Hmiss. }
  split; [done|]. rewrite Hturn. split; [done|]. split; [done|].
  rewrite !image_loader_thread_app. fold l.
  rewrite <- image_loader_thread_task_done, <- Hturn. done.
Qed.

End ImageLoader.

(** ** The sample runtime obeys the laws used above *)

Section PosixLaws.

Variable server : list string → string → http_result.
Variable parse : bytes → soup.
Variable rate : bytes → string → option PrimFloat.float.






End PosixLaws.

(** ** The claims on the sample worlds *)

Import Sample.

Lemma registered_folder_is_skipped_witness :
  @classify rt_offline "/g" (start_scan [old_row] game_offline) "RJ1" = Skipped
  ∧ ∃ st', @scan_folder rt_offline "/g" (start_scan [old_row] game_offline) "RJ1"
           = Done st'
      ∧ skipped_folders st' = ["RJ1"]
      ∧ sc_world st' = game_offline
      ∧ sc_games st' = [old_row]
      ∧ registered_folders st'
        = registered_folders (start_scan [old_row] game_offline)
      ∧ invalid_folders st' = []
      ∧ no_exe_folders st' = [].
Proof.
  apply (@registered_folder_is_skipped rt_offline [old_row]
           (start_scan [old_row] game_offline) "/g" "RJ1" old_row).
  - apply in_scan_start.
  - by vm_compute.
  - apply list_elem_of_here.
  - by vm_compute.
Defined.

(** C2 as stated fails: RJ1 has an identifier and no executable, but the
    server cannot be reached, so the folder is classified as a failed
    enrichment and lands in the invalid list, not in the no-executable
    one.  With a row for it in the store it is skipped instead. *)
Lemma failed_enrichment_is_not_no_executable :
  extract_game_code "RJ1" = Some "RJ1"
  ∧ @exe_list rt_offline disk_empty_folders "/g/RJ1" = []
  ∧ @classify rt_offline "/g" (start_scan [] two_folders_offline) "RJ1"
    = EnrichmentFailed
  ∧ @report_of rt_offline
      (@process_folders rt_offline ["/g"] [] two_folders_offline)
    = Some [[]; ["/g/MyGame"; "/g/RJ1"]; []]
  ∧ @classify rt_offline "/g" (start_scan [old_row] two_folders_offline) "RJ1"
    = Skipped.
Proof. repeat split; by vm_compute. Qed.

Lemma no_executable_is_not_persisted_witness :
  @classify rt_plain "/g" (start_scan [] empty_folders_plain) "RJ1"
  = NoExecutable
  ∧ ∃ st', @scan_folder rt_plain "/g" (start_scan [] empty_folders_plain) "RJ1"
           = Done st'
      ∧ no_exe_folders st' = ["RJ1"]
      ∧ sc_games st' = []
      ∧ registered_folders st' = ∅
      ∧ ∀ w2, path_isdir (w_fs w2) "/g/RJ1" = true →
          @classify rt_plain "/g" (start_scan (sc_games st') w2) "RJ1" ≠ Skipped
          ∧ ∃ template st2,
              base_urls !! "RJ" = Some template
              ∧ @scan_folder rt_plain "/g" (start_scan (sc_games st') w2) "RJ1"
                = Done st2
              ∧ skipped_folders st2 = []
              ∧ (w_requests w2 ++ [Str.format1 template "RJ1"])%list
                  `prefix_of` w_requests (sc_world st2).
Proof.
  destruct (@scrape_game_info rt_plain "RJ1" "/g/RJ1" empty_folders_plain)
    as [r w] eqn:E.
  assert (match r with Return (Some _) => true | _ => false end = true) as Hr.
  { assert (match (@scrape_game_info rt_plain "RJ1" "/g/RJ1"
                     empty_folders_plain).1 with
            | Return (Some _) => true
            | _ => false
            end = true) as H by by vm_compute.
    by rewrite E in H. }
  destruct r as [[info|]|e]; try discriminate Hr.
  assert (@os_walk rt_plain (w_fs w) "/g/RJ1" = [("/g/RJ1", [])]) as Hwalk.
  { assert (@os_walk rt_plain
              (w_fs (@scrape_game_info rt_plain "RJ1" "/g/RJ1"
                       empty_folders_plain).2) "/g/RJ1"
            = [("/g/RJ1", [])]) as H by by vm_compute.
    by rewrite E in H. }
  destruct (@no_executable_is_not_persisted rt_plain) as (_ & Hstep & Hnext).
  specialize (Hstep [] (start_scan [] empty_folders_plain) "/g" "RJ1" "RJ1"
                info w).
  cbn zeta in Hstep.
  destruct Hstep as (Hc & st' & Hdone & Hn & Hg & Hreg & _ & _ & Hin & Hnot).
  - apply in_scan_start.
  - by vm_compute.
  - apply (bool_decide_unpack _). by vm_compute.
  - by vm_compute.
  - exact E.
  - intros root files file Hin Hfile.
    change (path_normpath _) with "/g/RJ1" in Hin.
    rewrite Hwalk in Hin. apply list_elem_of_In in Hin.
    destruct Hin as [[= <- <-] | []].
    by apply list_elem_of_In in Hfile.
  - split; [exact Hc|]. exists st'. do 4 (split; [done|]).
    intros w2 Hdir2.
    specialize (Hnext [] st' "/g" "RJ1" "RJ1" w2). cbn zeta in Hnext.
    apply Hnext; [done | done | | by vm_compute | exact Hdir2].
    unfold new_rows. rewrite Hg. constructor.
Defined.





(** C6 as stated fails: the page of RJ1 is fetched with status 200 and
    has its title, but [thumb_imgs] is a regular file, [os.makedirs]
    raises inside the [try] block and the function returns None. *)
Lemma scrape_fails_when_cache_dir_is_blocked :
  @requests_get rt_images []
    "https://www.dlsite.com/maniax/work/=/product_id/RJ1.html"
  = Response 200 []
  ∧ fetch_failed (Response 200 []) = false
  ∧ h1_name (@html_parse rt_images []) = Some " Title "
  ∧ (@scrape_game_info rt_images "RJ1" "/g/RJ1" blocked_with_images).1
    = Return None.
Proof. repeat split; by vm_compute. Qed.

Lemma scrape_game_info_fails_iff_witness :
  ((@scrape_game_info rt_images "RJ1" "/g/RJ1" blocked_with_images).1
   = Return None
   ↔ fetch_failed (Response 200 []) = true
     ∨ (∃ page, @page_of rt_images (Response 200 []) = Some page
                ∧ h1_name page = None)
     ∨ (∃ page, @page_of rt_images (Response 200 []) = Some page
                ∧ is_Some (h1_name page)
                ∧ image_urls_of page ≠ []
                ∧ @cache_dir_fails rt_images "/g/RJ1" disk_blocked))
  ∧ @cache_dir_fails rt_images "/g/RJ1" disk_blocked.
Proof.
  split; [|exact I].
  pose proof (@scrape_game_info_fails_iff rt_images "RJ1" "/g/RJ1"
                blocked_with_images
                "https://www.dlsite.com/maniax/work/=/product_id/{}.html") as H.
  cbn zeta in H. destruct H as [H _]; [by vm_compute|]. exact H.
Defined.

Lemma missing_file_is_dropped_witness :
  @loader_turn rt_offline nat
    {| delivered := []; tasks_done := 0; stopped := false |}
    (disk_game, Item (Some (7%nat, "/g/RJ1/thumb_imgs/00.jpg", CARD_IMAGE_SIZE)))
  = {| delivered := []; tasks_done := 1; stopped := false |}.
Proof.
  apply (@missing_file_is_dropped rt_offline nat [] [(disk_game, QueueEmpty)]
           {| delivered := []; tasks_done := 0; stopped := false |}
           disk_game 7%nat "/g/RJ1/thumb_imgs/00.jpg" CARD_IMAGE_SIZE);
    by vm_compute.
Defined.

Lemma extracted_prefix_is_registered_witness :
  Str.take2 "RJ123456" = "RJ"
  ∧ is_Some (base_urls !! "RJ")
  ∧ ∃ info w', @scrape_game_info rt_offline "RJ123456" "/g/RJ123456_Title"
                 two_folders_offline = (Return info, w').
Proof.
  destruct (proj2 (@extracted_prefix_is_registered rt_offline)
              "RJ123456_Title" "RJ123456") as (_ & Hb & _ & Hs & _);
    [by vm_compute|].
  split; [by vm_compute|]. split; [exact Hb|]. apply Hs.
Defined.

(** A cover path is persisted although its file was never written: the
    page lists images, the image host cannot be reached. *)
Lemma cover_path_without_file :
  ∃ st r, @process_folders rt_images ["/g"] [] game_with_images = Done st
    ∧ sc_games st = [r]
    ∧ folder_path r = "/g/RJ1"
    ∧ cover_image r = "/g/RJ1/thumb_imgs/00.jpg"
    ∧ path_exists (w_fs (sc_world st)) (cover_image r) = false.
Proof.
  pose (facts := λ o : outcome (@scan rt_images),
          match o with
          | Done st =>
              Some (map
                      (λ r, (folder_path r, cover_image r,
                             path_exists (w_fs (sc_world st)) (cover_image r)))
                      (sc_games st))
          | Abort _ _ => None
          end).
  assert (facts (@process_folders rt_images ["/g"] [] game_with_images)
          = Some [("/g/RJ1", "/g/RJ1/thumb_imgs/00.jpg", false)]) as H
    by by vm_compute.
  destruct (@process_folders rt_images ["/g"] [] game_with_images)
    as [st|e st]; [|done].
  cbn [facts] in H. injection H as H.
  destruct (sc_games st) as [|r [|r' rows]] eqn:Eg; [done| |done].
  injection H as Hf Hc He. exists st, r.
  do 4 (split; [done|]). exact He.
Qed.

(** C10: the cover path of a row the scan inserts is empty or
    [<folderPath>/thumb_imgs/00.jpg]; it is the latter as soon as the
    page lists an image, whatever becomes of the download, so it can
    name a file that is not there, as in the sample run; the card view
    queues a request only for a cover file that exists, and the loader
    delivers nothing for a missing one. *)
Theorem cover_image_is_first_thumbnail :
  (∀ (R : Runtime) games0 st,
     in_scan games0 st →
     Forall (λ r, cover_image r = ""
                  ∨ cover_image r
                    = path_join (folder_path r) ["thumb_imgs"; "00.jpg"])
            (new_rows games0 st))
  ∧ (∀ (R : Runtime) code folder url w info w',
       scrape_page code folder url w = (Some info, w') →
       ∃ status content,
         requests_get (w_requests w) url = Response status content
         ∧ gi_cover_image info
           = match image_urls_of (html_parse content) with
             | [] => ""
             | _ => path_join folder ["thumb_imgs"; "00.jpg"]
             end)
  ∧ (∃ st r,
       @process_folders rt_images ["/g"] [] game_with_images = Done st
       ∧ sc_games st = [r]
       ∧ cover_image r
         = @path_join rt_images (folder_path r) ["thumb_imgs"; "00.jpg"]
       ∧ @path_exists rt_images (w_fs (sc_world st)) (cover_image r) = false)
  ∧ (∀ (R : Runtime) (label : Type) f (queue : list (@task label))
       img_label game,
       path_exists f (cover_image game) = false →
       request_cover f queue img_label game = queue)
  ∧ (∀ (R : Runtime) (label : Type) (l : @loader R label) f img_label
       game size,
       path_exists f (cover_image game) = false →
       delivered (loader_turn l (f, Item (Some (img_label, cover_image game, size))))
       = delivered l).
Proof.
  split; [intros R games0 st; apply new_rows_cover|].
  split; [intros R code folder url w info w'; apply scrape_page_cover|].
  split.
  { destruct cover_path_without_file as (st & r & Hrun & Hg & Hf & Hc & He).
    exists st, r. do 2 (split; [done|]). split; [|done].
    rewrite Hc, Hf. by vm_compute. }
  split; [intros R label f queue img_label game; apply request_cover_missing|].
  intros R label l f img_label game size Hmiss.
  unfold loader_turn. rewrite Hmiss. by destruct (stopped l).
Qed.

(** ** Values on sample inputs *)

Example extract_rj : extract_game_code "RJ123456_Title" = Some "RJ123456".
Proof. reflexivity. Qed.

Example extract_none : extract_game_code "MyGame" = None.
Proof. reflexivity. Qed.

Example extract_inner : extract_game_code "[circle] VJ0042 RJ7" = Some "VJ0042".
Proof. reflexivity. Qed.

Example fmt02_values : map Str.fmt02 [0; 1; 4; 12]%nat = ["00"; "01"; "04"; "12"].
Proof. reflexivity. Qed.

Example format_vj :
  Str.format1 "https://www.dlsite.com/pro/work/=/product_id/{}.html" "VJ01"
  = "https://www.dlsite.com/pro/work/=/product_id/VJ01.html".
Proof. reflexivity. Qed.

Example is_exe_values :
  map is_exe ["Game.EXE"; "setup.exe"; "readme.txt"; "exe"]
  = [true; true; false; false].
Proof. reflexivity. Qed.

Example normpath_values :
  map Posix.normpath ["/g/RJ1"; "/g//RJ1/"; "a/./b/../c"; ""; "//x"; "/.."]
  = ["/g/RJ1"; "/g/RJ1"; "a/c"; "."; "//x"; "/"].
Proof. by vm_compute. Qed.

(** With binary64 floats a picture of 4000 by 2000 asked to fit 200 by
    100 comes out at 200 by 100; a picture of 1000 by 1 asked to fit 100
    by 100 would get height 0 and the resize fails. *)
Example resize_4000_2000 :
  @resize_image_maintain_aspect rt_offline (4000, 2000) (200, 100)
  = Some (200, 100).
Proof. by vm_compute. Qed.

Example resize_flat_picture :
  @resize_image_maintain_aspect rt_offline (1000, 1) (100, 100) = None.
Proof. by vm_compute. Qed.

Example registered_run :
  @report_of rt_images (@process_folders rt_images ["/g"] [] game_with_images)
  = Some [[]; []; []].
Proof. by vm_compute. Qed.

Example rescan_skips :
  @report_of rt_offline (@process_folders rt_offline ["/g"] [old_row] game_offline)
  = Some [["RJ1"]; []; []].
Proof. by vm_compute. Qed.

(** * Properties of the rest of the program *)

(** ** The scan as a whole *)

Section ScanRun.

Context `{R : Runtime}.

Lemma scan_listing_done game_path names st :
  ∃ st', scan_listing game_path names st = Done st'.
Proof.
  revert st. induction names as [|n names IH]; intros st; cbn; [eauto|].
  destruct (scan_folder_done game_path st n) as [st1 ->]. apply IH.
Qed.

Lemma scan_game_paths_final game_paths games0 st :
  in_scan games0 st →
  in_scan games0 (final_state (scan_game_paths game_paths st))
  ∧ ∀ e st', scan_game_paths game_paths st = Abort e st' →
      e = OSError
      ∧ ∃ game_path, game_path ∈ game_paths
          ∧ path_exists (w_fs (sc_world st')) game_path = true
          ∧ os_listdir (w_fs (sc_world st')) game_path = None.
Proof.
  revert st. induction game_paths as [|gp gps IH]; intros st Hin; cbn.
  - split; [done|]. by intros e st'.
  - destruct (path_exists (w_fs (sc_world st)) gp) eqn:Hex; cbn [negb].
    + destruct (os_listdir (w_fs (sc_world st)) gp) as [names|] eqn:Hls.
      * destruct (scan_listing_done gp names st) as [st1 Hrun].
        rewrite Hrun.
        destruct (IH st1) as [Hfin Hab];
          [by eapply scan_listing_in_scan|].
        split; [done|]. intros e st' Ha.
        destruct (Hab e st' Ha) as (-> & gp' & Hgp' & ?).
        split; [done|]. exists gp'. split; [by right | done].
      * cbn. split; [done|]. intros e st' [= <- <-]. split; [done|].
        exists gp. split; [by left | done].
    + destruct (IH st Hin) as [Hfin Hab]. split; [done|].
      intros e st' Ha. destruct (Hab e st' Ha) as (-> & gp' & Hgp' & ?).
      split; [done|]. exists gp'. split; [by right | done].
Qed.

Lemma process_folders_final_in_scan game_paths games w :
  in_scan games (final_state (process_folders game_paths games w)).
Proof. apply scan_game_paths_final, in_scan_start. Qed.


Lemma classify_registered_fresh game_path st folder_name :
  classify game_path st folder_name = Registered →
  folder_of game_path folder_name ∉ registered_folders st.
Proof.
  unfold classify. destruct (negb _); [done|].
  destruct (bool_decide _) eqn:E; [done|]. intros _.
  by apply bool_decide_eq_false in E.
Qed.

Lemma scan_folder_fresh games0 st news game_path folder_name st' :
  scan_invariant games0 st news → fresh_paths games0 news →
  scan_folder game_path st folder_name = Done st' →
  ∃ news', scan_invariant games0 st' news' ∧ fresh_paths games0 news'.
Proof.
  intros (Hg & Hr & Hf) [Hnd Hfr] Hstep.
  pose proof (scan_folder_classify game_path st folder_name) as Hc.
  pose proof (classify_registered_fresh game_path st folder_name) as Hn.
  cbn zeta in Hc.
  destruct (classify game_path st folder_name);
    try (repeat match goal with H : ∃ _, _ |- _ => destruct H end;
         match goal with
         | H : scan_folder _ _ _ = Done _ |- _ =>
             rewrite H in Hstep; injection Hstep as <-
         end; by exists news).
  - destruct Hc as (w & r & Hc & Hp & He & Hcov). rewrite Hc in Hstep.
    injection Hstep as <-. specialize (Hn eq_refl).
    rewrite Hr, <- Hp in Hn. apply not_elem_of_union in Hn as [Hn1 Hn2].
    rewrite elem_of_list_to_set in Hn2.
    exists (news ++ [r])%list. split; [split; [|split] | split].
    + cbn. rewrite Hg. by rewrite <- app_assoc.
    + cbn. rewrite Hr, map_app, list_to_set_app_L. cbn.
      by rewrite (right_id_L ∅ (∪)), (assoc_L (∪)).
    + apply Forall_app. split; [done|]. apply Forall_singleton.
      split; [done|]. by rewrite Hp.
    + rewrite map_app. cbn. apply NoDup_app. split; [done|]. split.
      * intros x Hx ->%list_elem_of_singleton. done.
      * apply NoDup_singleton.
    + intros x [Hx | ->%list_elem_of_singleton]%elem_of_app; auto.
  - done.
Qed.

Lemma in_scan_fresh games0 st :
  in_scan games0 st →
  scan_invariant games0 st (new_rows games0 st)
  ∧ fresh_paths games0 (new_rows games0 st).
Proof.
  intros H.
  assert (∃ news, scan_invariant games0 st news ∧ fresh_paths games0 news)
    as (news & Hn & Hf).
  { induction H as [w | st gp n st' _ (news & IH & IHf) Hstep].
    - exists []. split; [split; [|split] | split].
      + cbn. by rewrite app_nil_r.
      + cbn. set_solver.
      + constructor.
      + constructor.
      + by intros r Hr%elem_of_nil.
    - by eapply scan_folder_fresh. }
  replace (new_rows games0 st) with news; [done|].
  destruct Hn as (Hg & _). unfold new_rows. rewrite Hg.
  by rewrite drop_app_length.
Qed.

(** X2: however a scan run ends, the table it leaves is the table it
    started on followed by the inserted rows; the inserted rows have
    pairwise distinct folder paths, and none of these is the normalized
    path of a row the run started on. *)
Theorem scan_inserts_fresh_paths game_paths games w :
  let st := final_state (process_folders game_paths games w) in
  sc_games st = (games ++ new_rows games st)%list
  ∧ NoDup (map folder_path (new_rows games st))
  ∧ ∀ r r0, r ∈ new_rows games st → r0 ∈ games →
      folder_path r ≠ path_normpath (folder_path r0).
Proof.
  intros st.
  destruct (in_scan_fresh games st) as ((Hg & _) & Hnd & Hfr).
  { apply process_folders_final_in_scan. }
  split; [done|]. split; [done|]. intros r r0 Hr Hr0 E.
  apply (Hfr r Hr). unfold load_registered.
  apply elem_of_list_to_set, list_elem_of_fmap. by exists r0.
Qed.

End ScanRun.

Section ScanCost.

Context `{R : Runtime}.

Lemma sends_refl w w' n :
  w_requests w' = w_requests w → sends_at_most n w w'.
Proof. intros E. exists []. rewrite E, app_nil_r. split; [done | cbn; lia]. Qed.

Lemma sends_trans n m w1 w2 w3 :
  sends_at_most n w1 w2 → sends_at_most m w2 w3 →
  sends_at_most (n + m) w1 w3.
Proof.
  intros (s1 & E1 & L1) (s2 & E2 & L2). exists (s1 ++ s2)%list.
  rewrite E2, E1, <- app_assoc. split; [done|]. rewrite length_app. lia.
Qed.

Lemma sends_mono n m w w' :
  (n ≤ m)%nat → sends_at_most n w w' → sends_at_most m w w'.
Proof. intros Hnm (s & E & L). exists s. split; [done | lia]. Qed.

Lemma sends_one w w' url :
  w_requests w' = (w_requests w ++ [url])%list → sends_at_most 1 w w'.
Proof. intros E. exists [url]. by rewrite E. Qed.

Lemma get_rating_sends code w : sends_at_most 1 w (get_rating code w).2.
Proof.
  unfold get_rating, http. destruct (api_urls !! _) as [t|];
    [|by apply sends_refl].
  destruct (requests_get _ _) as [|status content]; cbn;
    [by eapply sends_one|].
  destruct (raises_for_status status); cbn; [by eapply sends_one|].
  destruct (rate_average_2dp _ _); by eapply sends_one.
Qed.

Lemma download_one_sends thumb_dir w item :
  sends_at_most 1 w (download_one thumb_dir w item).
Proof.
  destruct item as [idx url]. unfold download_one.
  destruct (path_exists _ _); [by apply sends_refl|].
  eapply sends_one. apply fetch_image_requests.
Qed.

Lemma download_loop_sends thumb_dir items w :
  sends_at_most (length items) w (fold_left (download_one thumb_dir) items w).
Proof.
  revert w. induction items as [|item items IH]; intros w;
    [by apply sends_refl|].
  cbn [fold_left length]. change (S (length items)) with (1 + length items)%nat.
  eapply sends_trans; [apply download_one_sends | apply IH].
Qed.

Lemma download_images_sends urls code folder w w' :
  download_images urls code folder w = Some w' → sends_at_most 5 w w'.
Proof.
  unfold download_images. destruct (os_makedirs _ _) as [f|]; [|done].
  intros [= <-].
  pose proof (download_loop_sends (path_join folder ["thumb_imgs"])
                (enumerate (firstn 5 urls)) (with_fs w f)) as H.
  eapply sends_mono; [|exact H].
  unfold enumerate. rewrite length_combine, length_seq, length_firstn. lia.
Qed.

Lemma cover_image_of_sends urls code folder w :
  sends_at_most 5 w (cover_image_of urls code folder w).2.
Proof.
  unfold cover_image_of. destruct urls as [|u urls]; [by apply sends_refl|].
  destruct (os_makedirs _ _) as [f|]; [|by apply sends_refl].
  destruct (path_exists _ _); [by apply sends_refl|].
  destruct (download_images _ _ _ _) as [w2|] eqn:E; [|by apply sends_refl].
  by apply download_images_sends in E.
Qed.

Lemma scrape_page_sends code folder url w :
  ∃ rest, w_requests (scrape_page code folder url w).2
          = (w_requests w ++ url :: rest)%list
          ∧ (length rest ≤ 6)%nat.
Proof.
  assert (∀ w', sends_at_most 6
            {| w_fs := w_fs w; w_requests := w_requests w ++ [url] |} w' →
          ∃ rest, w_requests w' = (w_requests w ++ url :: rest)%list
                  ∧ (length rest ≤ 6)%nat) as Hwrap.
  { intros w' (s & E & L). exists s. cbn in E.
    by rewrite E, <- app_assoc. }
  unfold scrape_page, http.
  destruct (requests_get _ _) as [|status content];
    [by apply Hwrap, sends_refl|].
  destruct (raises_for_status status); [by apply Hwrap, sends_refl|].
  destruct (h1_name _); [|by apply Hwrap, sends_refl].
  destruct (get_rating _ _) as [x w2] eqn:Er.
  pose proof (get_rating_sends code
    {| w_fs := w_fs w; w_requests := w_requests w ++ [url] |}) as H1.
  rewrite Er in H1. cbn [snd] in H1.
  pose proof (cover_image_of_sends
    (image_urls_of (html_parse content)) code folder w2) as H2.
  destruct (cover_image_of _ _ _ _) as [[c|] w3]; cbn [snd] in *;
    apply Hwrap; by apply (sends_trans 1 5 _ w2).
Qed.

(** X5: what one folder costs in requests.  A name that is no folder, a
    folder already registered and a folder without identifier cost
    none.  Any other folder costs the request of its product page,
    which comes first, and at most six more (the rating and five
    images): seven at most. *)
Theorem scan_folder_request_bound game_path st folder_name :
  ∃ st' sent,
    scan_folder game_path st folder_name = Done st'
    ∧ w_requests (sc_world st') = (w_requests (sc_world st) ++ sent)%list
    ∧ (length sent ≤ 7)%nat
    ∧ match classify game_path st folder_name with
      | NotAFolder | Skipped | NoIdentifier => sent = []
      | _ => ∃ code template rest,
               extract_game_code folder_name = Some code
               ∧ base_urls !! Str.take2 code = Some template
               ∧ sent = Str.format1 template code :: rest
      end.
Proof.
  unfold classify, scan_folder.
  set (folder := folder_of game_path folder_name).
  destruct (negb _).
  { exists st, []. rewrite app_nil_r. repeat split; cbn; lia. }
  destruct (bool_decide _).
  { exists (skip st folder_name), []. cbn. rewrite app_nil_r.
    repeat split; cbn; lia. }
  destruct (extract_game_code folder_name) as [code|] eqn:E.
  2:{ eexists _, []. split; [done|]. cbn. rewrite app_nil_r.
      repeat split; cbn; lia. }
  destruct (base_urls_code code) as [t Ht].
  { by apply extract_code in E. }
  unfold scrape_game_info. rewrite Ht.
  destruct (scrape_page_sends code folder (Str.format1 t code) (sc_world st))
    as (rest & Hreq & Hlen).
  destruct (scrape_page _ _ _ _) as [info w1]. cbn [snd] in Hreq.
  assert (∃ code0 template rest0,
            Some code = Some code0
            ∧ base_urls !! Str.take2 code0 = Some template
            ∧ Str.format1 t code :: rest = Str.format1 template code0 :: rest0)
    as Hex by (by exists code, t, rest).
  destruct info as [info|].
  - unfold get_exe_files. rewrite loads_dumps.
    destruct (exe_list (w_fs w1) folder) as [|e es].
    + eexists _, _. split; [done|]. cbn. split; [exact Hreq|].
      split; [cbn [length]; lia | exact Hex].
    + eexists _, _. split; [done|]. cbn. split; [exact Hreq|].
      split; [cbn [length]; lia | exact Hex].
  - eexists _, _. split; [done|]. cbn. split; [exact Hreq|].
    split; [cbn [length]; lia | exact Hex].
Qed.

End ScanCost.

Section Rescan.

Context `{R : Runtime}.

Lemma skip_all_spec st names :
  sc_world (skip_all st names) = sc_world st
  ∧ sc_games (skip_all st names) = sc_games st
  ∧ registered_folders (skip_all st names) = registered_folders st
  ∧ skipped_folders (skip_all st names) = (skipped_folders st ++ names)%list
  ∧ invalid_folders (skip_all st names) = invalid_folders st
  ∧ no_exe_folders (skip_all st names) = no_exe_folders st.
Proof.
  unfold skip_all. revert st.
  induction names as [|n names IH]; intros st; cbn [fold_left].
  - by rewrite app_nil_r.
  - destruct (IH (skip st n)) as (-> & -> & -> & -> & -> & ->). cbn.
    by rewrite <- app_assoc.
Qed.

Lemma skip_all_app st l1 l2 :
  skip_all st (l1 ++ l2) = skip_all (skip_all st l1) l2.
Proof. unfold skip_all. apply fold_left_app. Qed.

Lemma scan_listing_all_registered game_path names st :
  (∀ n, n ∈ directories (w_fs (sc_world st)) game_path names →
        folder_of game_path n ∈ registered_folders st) →
  scan_listing game_path names st
  = Done (skip_all st (directories (w_fs (sc_world st)) game_path names)).
Proof.
  revert st. induction names as [|n names IH]; intros st Hall; [done|].
  cbn [scan_listing]. unfold directories in *. rewrite filter_cons in *.
  unfold scan_folder.
  destruct (decide (path_isdir (w_fs (sc_world st))
                      (folder_of game_path n) = true)) as [Hd|Hd].
  - rewrite Hd. cbn [negb].
    rewrite bool_decide_eq_true_2 by (apply Hall; left).
    rewrite (IH (skip st n)); [done|].
    intros m Hm. apply Hall. by right.
  - apply not_true_is_false in Hd. rewrite Hd. cbn [negb]. by apply IH.
Qed.

Lemma scan_game_paths_all_registered game_paths st :
  (∀ game_path, game_path ∈ game_paths →
     path_exists (w_fs (sc_world st)) game_path = true →
     ∃ names, os_listdir (w_fs (sc_world st)) game_path = Some names
       ∧ ∀ n, n ∈ directories (w_fs (sc_world st)) game_path names →
              folder_of game_path n ∈ registered_folders st) →
  scan_game_paths game_paths st
  = Done (skip_all st (listed_directories (w_fs (sc_world st)) game_paths)).
Proof.
  revert st. induction game_paths as [|gp gps IH]; intros st Hall; [done|].
  cbn [scan_game_paths listed_directories flat_map].
  fold (listed_directories (w_fs (sc_world st)) gps).
  destruct (path_exists (w_fs (sc_world st)) gp) eqn:Hex; cbn [negb].
  - destruct (Hall gp) as (names & Hls & Hreg); [by left | done |].
    rewrite Hls. cbn [default]. rewrite scan_listing_all_registered by done.
    rewrite skip_all_app.
    set (st1 := skip_all st (directories (w_fs (sc_world st)) gp names)).
    destruct (skip_all_spec st (directories (w_fs (sc_world st)) gp names))
      as (Hw & _ & Hr & _). fold st1 in Hw, Hr.
    rewrite (IH st1); [by rewrite Hw|]. rewrite Hw, Hr.
    intros gp' Hgp'. apply Hall. by right.
  - apply IH. intros gp' Hgp'. apply Hall. by right.
Qed.

(** X4: a run over game paths in which every folder met is already in
    the store sends no request, changes no file, inserts no row and
    reports nothing invalid or without executable; it only lists the
    folders, in the order met, as skipped. *)
Theorem rescan_changes_nothing game_paths games w :
  (∀ game_path, game_path ∈ game_paths →
     path_exists (w_fs w) game_path = true →
     ∃ names, os_listdir (w_fs w) game_path = Some names
       ∧ ∀ n, n ∈ directories (w_fs w) game_path names →
              folder_of game_path n ∈ load_registered games) →
  ∃ st, process_folders game_paths games w = Done st
    ∧ sc_world st = w
    ∧ sc_games st = games
    ∧ skipped_folders st = listed_directories (w_fs w) game_paths
    ∧ invalid_folders st = []
    ∧ no_exe_folders st = [].
Proof.
  intros Hall. unfold process_folders.
  rewrite scan_game_paths_all_registered by exact Hall.
  change (sc_world (start_scan games w)) with w.
  eexists. split; [done|].
  destruct (skip_all_spec (start_scan games w)
              (listed_directories (w_fs w) game_paths))
    as (-> & -> & _ & -> & -> & ->).
  done.
Qed.

(** The rows [scan_folder] adds, with the paths they are stored under. *)
Lemma scan_folder_rows game_path st folder_name st' :
  scan_folder game_path st folder_name = Done st' →
  ∃ rows,
    sc_games st' = (sc_games st ++ rows)%list
    ∧ map folder_path rows
      = map (folder_of game_path)
          (if decide (classify game_path st folder_name ∈ [Registered])
           then [folder_name] else [])
    ∧ registered_folders st'
      = registered_folders st ∪ list_to_set (map folder_path rows).
Proof.
  intros Hstep.
  pose proof (scan_folder_classify game_path st folder_name) as Hc.
  cbn zeta in Hc.
  destruct (classify game_path st folder_name);
    try (repeat match goal with H : ∃ _, _ |- _ => destruct H end;
         match goal with
         | H : scan_folder _ _ _ = Done _ |- _ =>
             rewrite H in Hstep; injection Hstep as <-
         end; exists []; cbn; rewrite app_nil_r; split; [done|];
         split; [done | set_solver]).
  - destruct Hc as (w & r & Hc & Hp & _). rewrite Hc in Hstep.
    injection Hstep as <-. exists [r]. cbn. rewrite Hp.
    split; [done|]. split; [done | set_solver].
  - done.
Qed.

(** X3: the rows the scan of a listing inserts are, in the order of the
    listing, one for each folder it registers, stored under the
    normalized path of the folder; the set of registered paths grows by
    exactly these paths. *)
Theorem scan_listing_rows game_path names st :
  ∃ st' rows,
    scan_listing game_path names st = Done st'
    ∧ sc_games st' = (sc_games st ++ rows)%list
    ∧ map folder_path rows
      = map (folder_of game_path)
          (names_with [Registered] (classify_listing game_path names st))
    ∧ registered_folders st'
      = registered_folders st ∪ list_to_set (map folder_path rows).
Proof.
  revert st. induction names as [|n names IH]; intros st.
  - exists st, []. cbn. rewrite app_nil_r. split; [done|].
    split; [done|]. split; [done | set_solver].
  - destruct (scan_folder_done game_path st n) as [st1 Hstep].
    destruct (scan_folder_rows _ _ _ _ Hstep) as (rows1 & Hg1 & Hp1 & Hr1).
    destruct (IH st1) as (st' & rows & Hrun & Hg & Hp & Hr).
    exists st', (rows1 ++ rows)%list.
    cbn [scan_listing classify_listing]. rewrite Hstep.
    split; [done|]. rewrite names_with_cons, !map_app.
    split; [by rewrite Hg, Hg1, <- app_assoc|].
    split; [by rewrite Hp, Hp1|].
    rewrite Hr, Hr1, list_to_set_app_L. set_solver.
Qed.

End Rescan.

(** ** The scan on the sample disks *)


(** The folder of the sample disk is in the store, under a path with a
    doubled slash; the second game path does not exist. *)
Lemma rescan_changes_nothing_witness :
  ∃ st, @process_folders rt_offline ["/g"; "/nowhere"] [old_row] game_offline
        = Done st
    ∧ sc_world st = game_offline
    ∧ sc_games st = [old_row]
    ∧ skipped_folders st
      = @listed_directories rt_offline (w_fs game_offline) ["/g"; "/nowhere"]
    ∧ invalid_folders st = []
    ∧ no_exe_folders st = [].
Proof.
  apply (@rescan_changes_nothing rt_offline).
  intros gp Hgp Hex.
  apply elem_of_cons in Hgp as [-> | Hgp].
  - exists ["RJ1"]. split; [by vm_compute|].
    assert (@directories rt_offline (w_fs game_offline) "/g" ["RJ1"] = ["RJ1"])
      as -> by by vm_compute.
    intros n ->%list_elem_of_singleton.
    apply elem_of_list_to_set, list_elem_of_fmap. exists old_row.
    split; [by vm_compute | apply list_elem_of_here].
  - apply list_elem_of_singleton in Hgp as ->.
    exfalso. revert Hex.
    assert (@path_exists rt_offline (w_fs game_offline) "/nowhere" = false)
      as -> by by vm_compute.
    done.
Defined.

(** ** The URLs [download_images] requests *)

Section DownloadUrls.

Context `{R : Runtime}.

Lemma absolute_url_http url : Str.startswith "http" (absolute_url url) = true.
Proof.
  unfold absolute_url. destruct (Str.startswith "http" url) eqn:E; [done|].
  reflexivity.
Qed.

Lemma enumerate_snd {A} (l : list A) : map snd (enumerate l) = l.
Proof.
  unfold enumerate. generalize 0%nat.
  induction l as [|a l IH]; intros start; [done|].
  cbn. by rewrite IH.
Qed.

Lemma download_loop_sent thumb_dir items w :
  ∃ sent,
    w_requests (fold_left (download_one thumb_dir) items w)
    = (w_requests w ++ sent)%list
    ∧ sent `sublist_of` map (λ item, absolute_url item.2) items.
Proof.
  revert w. induction items as [|[idx url] items IH]; intros w.
  - exists []. cbn. by rewrite app_nil_r.
  - cbn [fold_left map]. destruct (IH (download_one thumb_dir w (idx, url)))
      as (sent & -> & Hsub).
    unfold download_one. destruct (path_exists _ _).
    + exists sent. split; [done|]. by apply sublist_cons.
    + rewrite fetch_image_requests, <- app_assoc.
      exists (absolute_url url :: sent). split; [done|]. by apply sublist_skip.
Qed.

(** X6: whatever the file system does, the requests of one call of
    [download_images] are a subsequence of the first five image URLs of
    the page in their absolute form; each of them starts with http. *)
Theorem download_images_requests_absolute urls code folder w w' :
  download_images urls code folder w = Some w' →
  ∃ sent,
    w_requests w' = (w_requests w ++ sent)%list
    ∧ sent `sublist_of` map absolute_url (firstn 5 urls)
    ∧ Forall (λ url, Str.startswith "http" url = true) sent.
Proof.
  unfold download_images. destruct (os_makedirs _ _) as [f|]; [|done].
  intros [= <-].
  destruct (download_loop_sent (path_join folder ["thumb_imgs"])
              (enumerate (firstn 5 urls)) (with_fs w f))
    as (sent & Hreq & Hsub).
  exists sent. split; [exact Hreq|].
  assert (map (λ item : nat * string, absolute_url item.2)
            (enumerate (firstn 5 urls))
          = map absolute_url (firstn 5 urls)) as Hmap.
  { rewrite <- (enumerate_snd (firstn 5 urls)) at 2.
    by rewrite map_map. }
  rewrite Hmap in Hsub. split; [done|].
  apply Forall_forall. intros url Hin.
  pose proof (sublist_submseteq _ _ Hsub) as Hsm.
  apply (elem_of_submseteq _ _ _ Hin) in Hsm.
  apply list_elem_of_fmap in Hsm as (u & -> & _).
  apply absolute_url_http.
Qed.

End DownloadUrls.

(** ** The worker, from its first turn to its stop signal *)

Section LoaderRun.

Context `{R : Runtime} {label : Type}.

Lemma loader_stopped_turn (l : loader) (now : fs * @dequeued label) :
  stopped l = true → loader_turn l now = l.
Proof. intros H. destruct now as [f got]. unfold loader_turn. by rewrite H. Qed.

Lemma loader_stopped_run (turns : list (fs * @dequeued label)) l :
  stopped l = true → image_loader_thread turns l = l.
Proof.
  induction turns as [|now turns IH]; intros H; [done|].
  cbn. rewrite loader_stopped_turn by done. by apply IH.
Qed.

(** X7: the stop signal ends the worker for good.  Whatever is queued
    behind a [None], nothing more is delivered and nothing more is
    marked done; the signal itself is not marked done either. *)
Theorem loader_stops_for_good
    (pre post : list (fs * @dequeued label)) (f : fs) (l0 : loader) :
  let l := image_loader_thread pre l0 in
  let l' := image_loader_thread (pre ++ (f, Item None) :: post) l0 in
  stopped l' = true
  ∧ delivered l' = delivered l
  ∧ tasks_done l' = tasks_done l.
Proof.
  intros l l'. subst l'. rewrite image_loader_thread_app. fold l.
  cbn [image_loader_thread fold_left].
  assert (stopped (loader_turn l (f, Item None)) = true
          ∧ delivered (loader_turn l (f, Item None)) = delivered l
          ∧ tasks_done (loader_turn l (f, Item None)) = tasks_done l)
    as (Hs & Hd & Ht).
  { unfold loader_turn. by destruct (stopped l) eqn:E. }
  change (fold_left loader_turn post (loader_turn l (f, Item None)))
    with (image_loader_thread post (loader_turn l (f, Item None))).
  by rewrite loader_stopped_run.
Qed.

(** What one turn adds. *)
Lemma loader_turn_accounting (l : loader) (now : fs * @dequeued label) :
  ∃ news done,
    delivered (loader_turn l now) = (delivered l ++ news)%list
    ∧ tasks_done (loader_turn l now) = (tasks_done l + done)%nat
    ∧ (length news ≤ done)%nat
    ∧ (done ≤ if is_image_task now.2 then 1 else 0)%nat
    ∧ (stopped (loader_turn l now) = false →
       stopped l = false
       ∧ done = if is_image_task now.2 then 1%nat else 0%nat)
    ∧ Forall (λ d, ∃ img_path size,
                now.2 = Item (Some (d.1, img_path, size))
                ∧ path_exists now.1 img_path = true) news.
Proof.
  destruct now as [f got]. unfold loader_turn. cbn [fst snd].
  destruct (stopped l) eqn:Hs.
  { exists [], 0%nat. rewrite app_nil_r, Nat.add_0_r.
    split; [done|]. split; [done|]. split; [done|].
    split; [destruct (is_image_task got); lia|].
    split; [intros; congruence | constructor]. }
  destruct got as [|[[[lbl p] size]|]]; cbn [is_image_task].
  - exists [], 0%nat. rewrite app_nil_r, Nat.add_0_r. by repeat split.
  - destruct (path_exists f p) eqn:Hp; cbn [negb].
    + destruct (_ ≫= _) as [img|].
      * exists [(lbl, img)], 1%nat. cbn. rewrite Nat.add_1_r.
        repeat split; try done. apply Forall_singleton. by exists p, size.
      * exists [], 1%nat. cbn. rewrite app_nil_r, Nat.add_1_r.
        repeat split; try done; lia.
    + exists [], 1%nat. cbn. rewrite app_nil_r, Nat.add_1_r.
      repeat split; try done; lia.
  - exists [], 0%nat. cbn. rewrite app_nil_r, Nat.add_0_r. by repeat split.
Qed.

(** X8: over any run of the worker, every delivery belongs to an image
    request whose file existed when it was dequeued; there are no more
    deliveries than finished tasks and no more finished tasks than
    image requests, and a worker that is still running has finished
    every image request it dequeued. *)
Theorem loader_accounting (turns : list (fs * @dequeued label)) (l : loader) :
  let l' := image_loader_thread turns l in
  ∃ news,
    delivered l' = (delivered l ++ news)%list
    ∧ (length news + tasks_done l ≤ tasks_done l')%nat
    ∧ (tasks_done l' ≤ tasks_done l + image_tasks turns)%nat
    ∧ (stopped l' = false →
       tasks_done l' = (tasks_done l + image_tasks turns)%nat)
    ∧ Forall (λ d, ∃ f img_path size,
                (f, Item (Some (d.1, img_path, size))) ∈ turns
                ∧ path_exists f img_path = true) news.
Proof.
  revert l. induction turns as [|now turns IH]; intros l; cbn zeta.
  - exists []. cbn. rewrite app_nil_r. repeat split; try done; lia.
  - cbn [image_loader_thread fold_left].
    change (fold_left loader_turn turns (loader_turn l now))
      with (image_loader_thread turns (loader_turn l now)).
    destruct (loader_turn_accounting l now)
      as (n1 & d1 & Hd1 & Ht1 & Hl1 & Hb1 & Hs1 & Hf1).
    destruct (IH (loader_turn l now)) as (n2 & Hd2 & Hl2 & Hb2 & Hs2 & Hf2).
    assert (image_tasks (now :: turns)
            = ((if is_image_task now.2 then 1 else 0) + image_tasks turns)%nat)
      as Hcount.
    { unfold image_tasks. rewrite filter_cons.
      destruct (is_image_task now.2); [by rewrite decide_True|].
      by rewrite decide_False. }
    exists (n1 ++ n2)%list. rewrite Hd2, Hd1, <- app_assoc, length_app, Hcount.
    split; [done|]. split; [lia|]. split; [lia|]. split.
    + intros Hrun. rewrite (Hs2 Hrun).
      assert (stopped (loader_turn l now) = false) as Hrun1.
      { destruct (stopped (loader_turn l now)) eqn:E; [|done].
        revert Hrun. unfold image_loader_thread.
        fold (image_loader_thread turns (loader_turn l now)).
        rewrite loader_stopped_run by done. by rewrite E. }
      destruct (Hs1 Hrun1) as [_ ->]. lia.
    + apply Forall_app. split.
      * eapply Forall_impl; [exact Hf1|]. cbn beta.
        intros d (p & size & Hnow & Hp). exists now.1, p, size.
        split; [|done]. rewrite <- Hnow. destruct now. by left.
      * eapply Forall_impl; [exact Hf2|]. cbn beta.
        intros d (f & p & size & Hin & Hp). exists f, p, size.
        split; [by right | done].
Qed.

End LoaderRun.

(** ** The size [resize_image_maintain_aspect] asks for *)

Section ResizeSize.

Context `{R : Runtime}.

(** PIL returns an image of the size it was asked for. *)
Hypothesis resize_size : ∀ img size img',
  image_resize img size = Some img' → image_size img' = size.

(** X9: when the resize succeeds, the result has the width of the target
    or the height of the target: the width when the source is wider in
    proportion than the target, the height when it is not. *)
Theorem resize_keeps_one_dimension img target_width target_height img' :
  resize_image_maintain_aspect img (target_width, target_height) = Some img' →
  ∃ aspect target_aspect,
    int_truediv (image_size img).1 (image_size img).2 = Some aspect
    ∧ int_truediv target_width target_height = Some target_aspect
    ∧ if float_gt aspect target_aspect
      then (image_size img').1 = target_width
      else (image_size img').2 = target_height.
Proof using resize_size.
  unfold resize_image_maintain_aspect.
  destruct (image_size img) as [width height]. cbn [fst snd].
  destruct (int_truediv width height) as [aspect|]; [|done].
  destruct (int_truediv target_width target_height) as [target_aspect|];
    [|done].
  cbn. intros H. exists aspect, target_aspect. split; [done|]. split; [done|].
  destruct (float_gt aspect target_aspect).
  - destruct (int_div_float _ _) as [q|]; [|done]. cbn in H.
    destruct (int_of_float q) as [h|]; [|done]. cbn in H.
    by rewrite (resize_size _ _ _ H).
  - destruct (int_mul_float _ _) as [q|]; [|done]. cbn in H.
    destruct (int_of_float q) as [w0|]; [|done]. cbn in H.
    by rewrite (resize_size _ _ _ H).
Qed.

End ResizeSize.

(** ** The sample runtime: downloads and sizes *)

Lemma download_images_requests_absolute_witness :
  ∃ w', @download_images rt_pictures six_urls "RJ1" "/g/RJ1" cached_pictures
        = Some w'
    ∧ ∃ sent,
        w_requests w' = (w_requests cached_pictures ++ sent)%list
        ∧ sent `sublist_of` map absolute_url (firstn 5 six_urls)
        ∧ Forall (λ url, Str.startswith "http" url = true) sent.
Proof.
  destruct (@download_images rt_pictures six_urls "RJ1" "/g/RJ1" cached_pictures)
    as [w'|] eqn:E.
  2: { assert (is_Some (@download_images rt_pictures six_urls "RJ1" "/g/RJ1"
                         cached_pictures)) as [w' H].
       { apply (bool_decide_unpack _). by vm_compute. }
       congruence. }
  exists w'. split; [done|].
  exact (@download_images_requests_absolute rt_pictures six_urls "RJ1"
           "/g/RJ1" cached_pictures w' E).
Defined.

Lemma posix_resize_size server parse rate img size img' :
  @image_resize (Posix.runtime server parse rate) img size = Some img' →
  @image_size (Posix.runtime server parse rate) img' = size.
Proof.
  cbn. unfold Posix.resize. destruct size as [w h].
  destruct ((0 <? w) && (0 <? h)); [|done]. by intros [= <-].
Qed.

Lemma resize_keeps_one_dimension_witness :
  @resize_image_maintain_aspect rt_offline (4000, 2000) (200, 100)
  = Some (200, 100)
  ∧ ∃ aspect target_aspect,
      @int_truediv rt_offline 4000 2000 = Some aspect
      ∧ @int_truediv rt_offline 200 100 = Some target_aspect
      ∧ if @float_gt rt_offline aspect target_aspect
        then (@image_size rt_offline (200, 100)).1 = 200
        else (@image_size rt_offline (200, 100)).2 = 100.
Proof.
  split; [by vm_compute|].
  apply (@resize_keeps_one_dimension rt_offline
           (posix_resize_size offline (λ _, page_plain) no_rating)
           (4000, 2000) 200 100 (200, 100)).
  by vm_compute.
Defined.

(** ** Pages *)

Section Pages.

Context {A : Type}.

Implicit Types (l : list A) (p : pager A).

Lemma take_min l (n : nat) : take (n `min` length l) l = take n l.
Proof.
  destruct (decide (n ≤ length l)%nat).
  - by rewrite Nat.min_l.
  - rewrite Nat.min_r by lia. by rewrite !take_ge by lia.
Qed.

Lemma py_slice_page l (k : nat) :
  (1 ≤ k)%nat →
  py_slice l ((Z.of_nat k - 1) * items_per_page)
    ((Z.of_nat k - 1) * items_per_page + items_per_page)
  = page_items l k.
Proof.
  intros Hk. unfold py_slice, page_items, slice_index, items_per_page.
  set (len := Z.of_nat (length l)).
  rewrite (proj2 (Z.ltb_ge _ 0)) by lia.
  rewrite (proj2 (Z.ltb_ge _ 0)) by lia.
  destruct (decide (len ≤ (Z.of_nat k - 1) * 20)) as [Hge|Hlt].
  - rewrite !Z.min_r by lia. rewrite Z.sub_diag. cbn [Z.to_nat take].
    rewrite (drop_ge l ((k - 1) * 20)) by lia. by rewrite take_nil.
  - rewrite (Z.min_l ((Z.of_nat k - 1) * 20)) by lia.
    replace (Z.to_nat ((Z.of_nat k - 1) * 20)) with ((k - 1) * 20)%nat by lia.
    rewrite <- (take_min (drop _ l) 20). rewrite length_drop. f_equal. lia.
Qed.

Lemma concat_pages l (n : nat) :
  concat (map (page_items l) (seq 1 n)) = take (n * 20) l.
Proof.
  induction n as [|n IH]; [by rewrite take_0|].
  rewrite seq_S, map_app, concat_app, IH. cbn [map concat]. rewrite app_nil_r.
  unfold page_items. replace (1 + n - 1)%nat with n by lia.
  rewrite take_take_drop. f_equal. lia.
Qed.

Lemma pages_for_covers (n : nat) :
  (Z.of_nat n ≤ pages_for n * 20 ∧ (pages_for n - 1) * 20 ≤ Z.of_nat n)
  ∧ 1 ≤ pages_for n
  ∧ (n ≠ 0%nat → (pages_for n - 1) * 20 < Z.of_nat n).
Proof.
  unfold pages_for, items_per_page.
  pose proof (Z.div_mod (Z.of_nat n + 20 - 1) 20 ltac:(lia)) as Hd.
  pose proof (Z.mod_pos_bound (Z.of_nat n + 20 - 1) 20 ltac:(lia)) as Hm.
  lia.
Qed.

Lemma refresh_display_frames p :
  1 ≤ current_page p →
  game_frames (refresh_display p)
  = page_items (all_games p) (Z.to_nat (current_page p)).
Proof.
  intros Hp. unfold refresh_display, update_page_controls. cbn [game_frames].
  rewrite <- py_slice_page by lia. by rewrite Z2Nat.id by lia.
Qed.

Lemma refresh_display_ok p :
  1 ≤ current_page p →
  pager_ok (refresh_display p)
  ∧ all_games (refresh_display p) = all_games p
  ∧ current_page (refresh_display p)
    = Z.min (current_page p) (pages_for (length (all_games p))).
Proof.
  intros Hp. unfold pager_ok, refresh_display, update_page_controls. cbn.
  fold (pages_for (length (all_games p))).
  destruct (pages_for_covers (length (all_games p))) as (_ & H1 & _).
  repeat split; lia.
Qed.

(** X10: the pages cut the list into consecutive pieces.  Shown one
    after the other, pages 1 to the last give back the whole list in
    order; every page holds at most 20 games, every page before the
    last exactly 20, and the last page of a non-empty list is not
    empty. *)
Theorem pages_partition p :
  let n := Z.to_nat (pages_for (length (all_games p))) in
  let shown k := game_frames (refresh_display (set_page p (Z.of_nat k))) in
  concat (map shown (seq 1 n)) = all_games p
  ∧ ∀ k, (1 ≤ k ≤ n)%nat →
      (length (shown k) ≤ 20)%nat
      ∧ ((k < n)%nat → length (shown k) = 20%nat)
      ∧ (k = n → all_games p ≠ [] → shown k ≠ []).
Proof.
  intros n shown.
  destruct (pages_for_covers (length (all_games p))) as (Hcov & H1 & Hlast).
  assert (Z.of_nat n = pages_for (length (all_games p))) as Hn
    by (unfold n; lia).
  assert (∀ k, (1 ≤ k)%nat → shown k = page_items (all_games p) k) as Hshown.
  { intros k Hk. unfold shown. rewrite refresh_display_frames by (cbn; lia).
    cbn. by rewrite Nat2Z.id. }
  split.
  - transitivity (take (n * 20) (all_games p)); [|apply take_ge; lia].
    rewrite <- concat_pages. f_equal. apply map_ext_in.
    intros k Hk%in_seq. apply Hshown. lia.
  - intros k [Hk1 Hkn]. rewrite Hshown by done. unfold page_items.
    rewrite length_take, length_drop. split; [lia|]. split; [lia|].
    intros -> Hne. intros Hnil. apply (f_equal length) in Hnil.
    rewrite length_take, length_drop in Hnil.
    change (length (@nil A)) with 0%nat in Hnil.
    assert (length (all_games p) ≠ 0%nat) as Hlen.
    { by destruct (all_games p). }
    specialize (Hlast Hlen). lia.
Qed.

(** X11: with the page controls up to date and a next page to go to,
    [next_page] shows exactly the games of the next page, which is not
    empty, and keeps the controls up to date; [prev_page] then brings
    back the page one came from. *)
Theorem next_then_prev_page p :
  pager_ok p → current_page p < total_pages p →
  let p' := next_page p in
  pager_ok p'
  ∧ all_games p' = all_games p
  ∧ current_page p' = current_page p + 1
  ∧ game_frames p' = page_items (all_games p) (Z.to_nat (current_page p + 1))
  ∧ game_frames p' ≠ []
  ∧ current_page (prev_page p') = current_page p
  ∧ game_frames (prev_page p')
    = page_items (all_games p) (Z.to_nat (current_page p)).
Proof.
  intros [Hr Ht] Hnext p'.
  assert (p' = refresh_display (set_page p (current_page p + 1))) as Hp'.
  { unfold p', next_page. by rewrite (proj2 (Z.ltb_lt _ _) Hnext). }
  destruct (refresh_display_ok (set_page p (current_page p + 1)))
    as (Hok & Hall & Hcur); [cbn; lia|].
  cbn [set_page all_games current_page] in Hall, Hcur.
  rewrite <- Ht in Hcur. rewrite Z.min_l in Hcur by lia.
  rewrite <- Hp' in Hok, Hall, Hcur.
  assert (game_frames p'
          = page_items (all_games p) (Z.to_nat (current_page p + 1))) as Hfr.
  { rewrite Hp', refresh_display_frames by (cbn; lia). done. }
  split; [done|]. split; [done|]. split; [done|]. split; [done|].
  destruct (pages_for_covers (length (all_games p))) as (Hcov & H1 & Hlast).
  split.
  { rewrite Hfr. unfold page_items. intros Hnil.
    apply (f_equal length) in Hnil.
    rewrite length_take, length_drop in Hnil.
    change (length (@nil A)) with 0%nat in Hnil.
    assert (length (all_games p) ≠ 0%nat) as Hlen.
    { intros E. rewrite E in Ht. change (pages_for 0) with 1 in Ht. lia. }
    specialize (Hlast Hlen). lia. }
  assert (prev_page p' = refresh_display (set_page p' (current_page p)))
    as Hprev.
  { unfold prev_page. rewrite (proj2 (Z.ltb_lt 1 (current_page p'))) by lia.
    do 2 f_equal. lia. }
  destruct (refresh_display_ok (set_page p' (current_page p)))
    as (_ & _ & Hcur2); [cbn; lia|].
  cbn [set_page all_games current_page] in Hcur2.
  rewrite Hall, <- Ht in Hcur2. rewrite Z.min_l in Hcur2 by lia.
  rewrite Hprev. split; [done|].
  rewrite refresh_display_frames by (cbn; lia). cbn. by rewrite Hall.
Qed.

(** X12: [refresh_display] cuts the slice before it brings the page
    number back into range.  When the list has become too short for
    the current page, no card is shown, although the page number is
    then set to the last page, which has games. *)
Theorem stale_page_shows_nothing p :
  all_games p ≠ [] →
  pages_for (length (all_games p)) < current_page p →
  let p' := refresh_display p in
  game_frames p' = []
  ∧ current_page p' = pages_for (length (all_games p))
  ∧ total_pages p' = pages_for (length (all_games p))
  ∧ page_items (all_games p') (Z.to_nat (current_page p')) ≠ [].
Proof.
  intros Hne Hpast p'.
  destruct (pages_for_covers (length (all_games p))) as (Hcov & H1 & Hlast).
  assert (length (all_games p) ≠ 0%nat) as Hlen by by destruct (all_games p).
  specialize (Hlast Hlen).
  destruct (refresh_display_ok p) as ((_ & Htot) & Hall & Hcur); [lia|].
  fold p' in Htot, Hall, Hcur. rewrite Z.min_r in Hcur by lia.
  rewrite Hall in Htot.
  split; [|split; [done|split; [done|]]].
  - unfold p'. rewrite refresh_display_frames by lia. unfold page_items.
    rewrite drop_ge by lia. by rewrite take_nil.
  - rewrite Hall, Hcur. unfold page_items. intros Hnil.
    apply (f_equal length) in Hnil.
    rewrite length_take, length_drop in Hnil.
    change (length (@nil A)) with 0%nat in Hnil. lia.
Qed.

Lemma enumerate_lookup {B} (l : list B) (i j : nat) (x : B) :
  enumerate l !! i = Some (j, x) → j = i ∧ l !! i = Some x.
Proof.
  unfold enumerate.
  assert (∀ s, combine (seq s (length l)) l !! i = Some (j, x) →
               j = (s + i)%nat ∧ l !! i = Some x) as H.
  { revert i. induction l as [|a l IH]; intros i s; [done|].
    destruct i as [|i]; cbn.
    - intros [= <- <-]. split; [lia | done].
    - intros E. destruct (IH i (S s) E) as [-> Hx]. split; [lia | done]. }
  intros E. by destruct (H 0%nat E) as [-> Hx].
Qed.

Lemma map_lookup {B C} (f : B → C) (l : list B) (i : nat) :
  map f l !! i = f <$> l !! i.
Proof.
  revert i. induction l as [|a l IH]; intros [|i]; cbn; done.
Qed.

(** X13: the grid gives every card a cell of its own.  There is at
    least one column; card [i] is in column [i mod columns] of row
    [i / columns], so the cards fill the rows from left to right and
    no two cards share a cell. *)
Theorem grid_cells_distinct (window_width : Z) (frames : list A) :
  let columns := grid_columns window_width in
  let placed := on_window_configure window_width frames in
  1 ≤ columns
  ∧ map fst placed = frames
  ∧ NoDup (map snd placed)
  ∧ ∀ (i : nat) cell, map snd placed !! i = Some cell →
      0 ≤ cell.2 < columns ∧ cell.1 * columns + cell.2 = Z.of_nat i.
Proof.
  intros columns placed.
  assert (1 ≤ columns) as Hc by (unfold columns, grid_columns; lia).
  assert (∀ (i : nat) cell, map snd placed !! i = Some cell →
            0 ≤ cell.2 < columns ∧ cell.1 * columns + cell.2 = Z.of_nat i)
    as Hcell.
  { intros i cell. unfold placed, on_window_configure.
    fold columns. rewrite map_map.
    rewrite map_lookup.
    destruct (enumerate frames !! i) as [[j fr]|] eqn:E; [|done].
    apply enumerate_lookup in E as [-> _]. cbn. intros [= <-]. cbn.
    pose proof (Z.div_mod (Z.of_nat i) columns ltac:(lia)).
    pose proof (Z.mod_pos_bound (Z.of_nat i) columns ltac:(lia)).
    lia. }
  split; [done|]. split; [|split; [|done]].
  - unfold placed, on_window_configure. rewrite map_map.
    rewrite <- (enumerate_snd frames) at 2. apply map_ext.
    by intros [i fr].
  - apply NoDup_alt. intros i j cell Hi Hj.
    destruct (Hcell i cell Hi) as [_ Ei].
    destruct (Hcell j cell Hj) as [_ Ej]. lia.
Qed.

End Pages.

(** Twenty-five games on two pages. *)
Lemma next_then_prev_page_witness :
  let p := {| all_games := seq 0 25; current_page := 1; total_pages := 2;
              game_frames := seq 0 20 |} in
  let p' := next_page p in
  pager_ok p'
  ∧ all_games p' = all_games p
  ∧ current_page p' = current_page p + 1
  ∧ game_frames p' = page_items (all_games p) (Z.to_nat (current_page p + 1))
  ∧ game_frames p' ≠ []
  ∧ current_page (prev_page p') = current_page p
  ∧ game_frames (prev_page p')
    = page_items (all_games p) (Z.to_nat (current_page p)).
Proof.
  intros p. apply (next_then_prev_page p).
  - split; [cbn; lia | by vm_compute].
  - cbn. lia.
Defined.

(** Page 2 of 21 games after its only game has gone. *)
Lemma stale_page_shows_nothing_witness :
  let p := {| all_games := seq 0 20; current_page := 2; total_pages := 2;
              game_frames := [20%nat] |} in
  let p' := refresh_display p in
  game_frames p' = []
  ∧ current_page p' = pages_for (length (all_games p))
  ∧ total_pages p' = pages_for (length (all_games p))
  ∧ page_items (all_games p') (Z.to_nat (current_page p')) ≠ [].
Proof.
  intros p. apply (stale_page_shows_nothing p).
  - done.
  - by vm_compute.
Defined.

(** ** Launching a game and remembering the executable *)

Section Launch.

Context `{R : Runtime}.

Lemma on_select_ids games id exe :
  map game_id (on_select games id exe) = map game_id games.
Proof.
  unfold on_select. rewrite map_map. apply map_ext.
  intros g. by destruct (bool_decide _).
Qed.

Lemma select_on_select games id exe :
  select_exe_files (on_select games id exe) id
  = match select_exe_files games id with
    | Some _ => Some (json_dumps [exe])
    | None => None
    end.
Proof.
  unfold select_exe_files, on_select.
  induction games as [|g games IH]; [done|].
  cbn [map]. rewrite !filter_cons.
  destruct (decide (game_id g = id)) as [E|E].
  - rewrite bool_decide_eq_true_2 by done. cbn [game_id].
    by rewrite decide_True.
  - rewrite bool_decide_eq_false_2 by done. by rewrite decide_False.
Qed.

Lemma on_select_others games id exe g :
  game_id g ≠ id → g ∈ games → g ∈ on_select games id exe.
Proof.
  intros Hne Hin. unfold on_select. apply list_elem_of_fmap.
  exists g. split; [|done]. by rewrite bool_decide_eq_false_2.
Qed.

(** X14: a choice made in the selection dialog is remembered.  When the
    stored list of a game has several executables and the user clicks
    one, that one is launched and the stored list becomes that one
    alone, the other rows staying as they are; from then on [run_game]
    launches it without asking, whatever list the card still carries
    and whatever the user would click. *)
Theorem chosen_exe_is_remembered games folder exe_files id stored
    (i : nat) exe :
  select_exe_files games id = Some stored →
  (2 ≤ length (json_loads stored))%nat →
  json_loads stored !! i = Some exe →
  nonempty exe = true →
  ∃ games',
    run_game games folder exe_files id (Some i)
    = (Some (path_join folder [exe]), games')
    ∧ select_exe_files games' id = Some (json_dumps [exe])
    ∧ map game_id games' = map game_id games
    ∧ (∀ g, game_id g ≠ id → g ∈ games → g ∈ games')
    ∧ ∀ folder' exe_files' pick',
        run_game games' folder' exe_files' id pick'
        = (Some (path_join folder' [exe]), games').
Proof.
  intros Hsel Hlen Hi Hne.
  exists (on_select games id exe).
  assert (select_exe_files (on_select games id exe) id
          = Some (json_dumps [exe])) as Hsel'.
  { by rewrite select_on_select, Hsel. }
  split; [|split; [done|split; [apply on_select_ids|split]]].
  - unfold run_game. rewrite Hsel.
    change (default exe_files (Some stored)) with stored.
    destruct (json_loads stored) as [|e1 [|e2 l]] eqn:El;
      [cbn in Hlen; lia | cbn in Hlen; lia |].
    change (Some i ≫= ((e1 :: e2 :: l) !!.)) with ((e1 :: e2 :: l) !! i).
    rewrite Hi. by rewrite Hne.
  - intros g. apply on_select_others.
  - intros folder' exe_files' pick'. unfold run_game. rewrite Hsel'.
    done.
Qed.

End Launch.

(** ** Deleting a game *)

Lemma filter_all {A} (P : A → Prop) `{∀ x, Decision (P x)} (l : list A) :
  (∀ x, x ∈ l → P x) → filter P l = l.
Proof.
  induction l as [|a l IH]; intros Hl; [done|].
  rewrite filter_cons, decide_True by (apply Hl; left).
  f_equal. apply IH. intros x Hx. apply Hl. by right.
Qed.

Section DeleteGame.

Context `{R : Runtime}.

Variable send2trash : fs → string → option fs.

(** X15: [delete_game] does nothing at all unless the user confirms
    with the delete button, and nothing either when the folder exists
    but cannot be moved to the trash: the row stays in the table and
    the game stays in the list. *)
Theorem delete_game_needs_consent_and_trash answer g s :
  answer ≠ "삭제"
  ∨ (path_exists (lib_fs s) (folder_path (game_data g)) = true
     ∧ send2trash (lib_fs s) (folder_path (game_data g)) = None) →
  delete_game send2trash answer g s = s.
Proof.
  unfold delete_game. intros [Hno | [Hex Hfail]].
  - by rewrite (proj2 (String.eqb_neq _ _) Hno).
  - destruct (String.eqb answer _); [|done]. cbn [negb]. by rewrite Hex, Hfail.
Qed.

Lemma filter_other_ids_length (l : list game) id g :
  NoDup (map game_id l) → g ∈ l → game_id g = id →
  (length (filter (λ x, game_id x ≠ id) l) + 1 = length l)%nat.
Proof.
  intros Hnd Hin Hid. induction l as [|a l IH]; [by apply elem_of_nil in Hin|].
  cbn [map] in Hnd. apply NoDup_cons in Hnd as [Ha Hnd].
  rewrite filter_cons. destruct (decide (game_id a = id)) as [E|E].
  - rewrite decide_False by (intros H; by apply H).
    cbn [length].
    replace (filter (λ x, game_id x ≠ id) l) with l; [lia|].
    symmetry. apply filter_all. intros x Hx Ex. apply Ha.
    rewrite E, <- Ex. apply list_elem_of_fmap. by exists x.
  - rewrite decide_True by done. cbn [length].
    apply elem_of_cons in Hin as [-> | Hin]; [congruence|].
    specialize (IH Hnd Hin). lia.
Qed.

(** X16: once confirmed, and the folder being moved to the trash or not
    there at all, [delete_game] removes the rows with the id of the
    game and no other: a row is in the table afterwards exactly when it
    was there before under another id, the order of the rows is kept,
    the same holds of the list behind the cards, and with distinct ids
    the table loses exactly one row.  A folder that does not exist
    leaves the disk as it is. *)
Theorem delete_game_removes_the_row g s f' :
  (if path_exists (lib_fs s) (folder_path (game_data g))
   then send2trash (lib_fs s) (folder_path (game_data g))
   else Some (lib_fs s)) = Some f' →
  let s' := delete_game send2trash "삭제" g s in
  lib_fs s' = f'
  ∧ (∀ x, x ∈ lib_games s' ↔ x ∈ lib_games s ∧ game_id x ≠ game_id g)
  ∧ lib_games s' `sublist_of` lib_games s
  ∧ select_exe_files (lib_games s') (game_id g) = None
  ∧ all_games (lib_pager s')
    = filter (λ x, game_id x ≠ game_id g) (all_games (lib_pager s))
  ∧ (NoDup (map game_id (lib_games s)) → g ∈ lib_games s →
     (length (lib_games s') + 1 = length (lib_games s))%nat).
Proof.
  intros Htrash s'. unfold s', delete_game.
  change (negb (String.eqb "삭제" "삭제")) with false. cbv iota.
  rewrite Htrash. cbn [lib_fs lib_games lib_pager].
  split; [done|]. split; [|split; [|split; [|split]]].
  - intros x. rewrite list_elem_of_filter. tauto.
  - apply sublist_filter.
  - unfold select_exe_files.
    rewrite list_filter_filter.
    rewrite (filter_none _ (lib_games s)); [done|]. intros x _ [E Hne]. done.
  - done.
  - intros Hnd Hin. by apply (filter_other_ids_length _ _ g).
Qed.

End DeleteGame.

(** ** The duplicate check *)

Section DuplicateCodes.

Context `{R : Runtime}.

Variable group_order : list string → list string.

(** The groups come in some order, each once. *)
Hypothesis group_order_perm : ∀ l, group_order l ≡ₚ l.

Implicit Types (games : list game) (cs : list string).







End DuplicateCodes.

(** ** Manual registration and the list of invalid folders *)

Section Manual.

Context `{R : Runtime}.

Lemma nonempty_true s : nonempty s = true ↔ s ≠ "".
Proof. by destruct s. Qed.

Lemma select_exe_files_last games id r :
  id ∉ map game_id games →
  select_exe_files (games ++ [{| game_id := id; game_data := r |}])%list id
  = Some (exe_files r).
Proof.
  intros Hid. unfold select_exe_files. rewrite filter_app.
  rewrite (filter_none _ games).
  - rewrite filter_cons_True by done. done.
  - intros g Hg E. apply Hid. rewrite <- E. apply list_elem_of_fmap.
    by exists g.
Qed.

(** X18: what manual registration stores.  With a blank title nothing
    is stored.  Otherwise exactly one row is appended, under the folder
    path as given, with a title and a game code that are not empty and
    with the executables found below the folder; when there is none the
    row is stored all the same, and launching it does nothing. *)
Theorem save_manual_info_row entries folder downloaded_image_path
    timestamp new_id master_has_viewer f games invalid :
  match save_manual_info entries folder downloaded_image_path timestamp
          new_id master_has_viewer f games invalid with
  | None => str_strip (entry_title entries) = ""
  | Some (games', _) =>
      ∃ r,
        games' = (games ++ [{| game_id := new_id; game_data := r |}])%list
        ∧ title r = str_strip (entry_title entries)
        ∧ title r ≠ ""
        ∧ game_code r ≠ ""
        ∧ folder_path r = folder
        ∧ json_loads (exe_files r) = exe_list f folder
        ∧ (exe_list f folder = [] → new_id ∉ map game_id games →
           ∀ folder' exe_files' pick,
             run_game games' folder' exe_files' new_id pick = (None, games'))
  end.
Proof.
  unfold save_manual_info.
  destruct (nonempty (str_strip (entry_title entries))) eqn:Ht; cbn [negb].
  2: { by destruct (str_strip (entry_title entries)). }
  eexists. split; [reflexivity|]. cbn [title game_code folder_path exe_files].
  split; [done|]. split; [by apply nonempty_true|]. split.
  { destruct (nonempty (str_strip (entry_game_code entries))) eqn:Hc;
      cbn [negb]; [by apply nonempty_true | done]. }
  split; [done|]. split; [apply loads_dumps|].
  intros Hnone Hfresh folder' exe_files' pick. unfold run_game.
  rewrite select_exe_files_last by done. cbn [exe_files default].
  by rewrite Hnone.
Qed.

Lemma remove_first_other x y l :
  y ≠ x → y ∈ remove_first x l ↔ y ∈ l.
Proof.
  intros Hne. induction l as [|a l IH]; [done|]. cbn.
  destruct (String.eqb a x) eqn:E.
  - apply String.eqb_eq in E as ->. rewrite elem_of_cons. naive_solver.
  - rewrite !elem_of_cons, IH. done.
Qed.

Variable path_basename : string → string.

(** X19: a folder registered by hand is no longer offered as invalid.
    Whether or not the dialog took it off the list itself, the next
    [process_invalid_folders] drops it, because a row is now stored
    under its path; the other folders are offered exactly as they would
    have been before. *)
Theorem manual_registration_clears_invalid entries folder
    downloaded_image_path timestamp new_id master_has_viewer f games invalid
    games' invalid' :
  save_manual_info entries folder downloaded_image_path timestamp new_id
    master_has_viewer f games invalid = Some (games', invalid') →
  let remaining := (process_invalid_folders path_basename games' invalid').1 in
  (folder ∉ remaining)
  ∧ (∀ p, p ≠ folder →
       p ∈ remaining
       ↔ p ∈ (process_invalid_folders path_basename games invalid).1)
  ∧ ((process_invalid_folders path_basename games' invalid').2 = None
     ↔ remaining = []).
Proof.
  unfold save_manual_info.
  destruct (nonempty (str_strip (entry_title entries))); cbn [negb]; [|done].
  intros [= <- <-].
  unfold process_invalid_folders. cbn [fst snd].
  split; [|split].
  - intros [Hnot _]%list_elem_of_filter. apply Hnot.
    rewrite map_app. apply elem_of_app. right. cbn. by left.
  - intros p Hp. rewrite !list_elem_of_filter, map_app, elem_of_app. cbn.
    rewrite list_elem_of_singleton.
    assert (p ∈ (if master_has_viewer then remove_first folder invalid
                 else invalid) ↔ p ∈ invalid) as ->.
    { destruct master_has_viewer; [by apply remove_first_other | done]. }
    naive_solver.
  - destruct (filter _ _); cbn; naive_solver.
Qed.

(** X20: the list of game folders stays free of duplicates.  When no
    two of the paths have the same normal form, and normalizing the
    chosen path a second time changes nothing, no two have after
    [add_folder] either; a chosen folder is then on the list in its
    normal form, and adding it once more changes nothing. *)
Theorem add_folder_keeps_paths_distinct chosen game_paths :
  path_normpath (path_normpath chosen) = path_normpath chosen →
  NoDup (map path_normpath game_paths) →
  NoDup (map path_normpath (add_folder chosen game_paths))
  ∧ (chosen ≠ "" →
     path_normpath chosen ∈ map path_normpath (add_folder chosen game_paths))
  ∧ add_folder chosen (add_folder chosen game_paths)
    = add_folder chosen game_paths.
Proof.
  intros Hidem Hnd. unfold add_folder.
  destruct (nonempty chosen) eqn:Hc.
  2: { split; [done|]. split; [|done].
       intros Hne. apply nonempty_true in Hne. congruence. }
  destruct (bool_decide (path_normpath chosen ∈ map path_normpath game_paths))
    eqn:Hin.
  - split; [done|]. split; [|by rewrite Hin].
    intros _. by apply bool_decide_eq_true in Hin.
  - apply bool_decide_eq_false in Hin.
    rewrite map_app. cbn [map]. rewrite Hidem.
    rewrite bool_decide_eq_true_2
      by (apply elem_of_app; right; by left).
    split; [|split; [|done]].
    + apply NoDup_app. split; [done|]. split; [|apply NoDup_singleton].
      intros x Hx ->%list_elem_of_singleton. done.
    + intros _. apply elem_of_app. right. by left.
Qed.

(** X21: [remove_folder] removes the entry at the index and nothing
    else, and only when confirmed: taking off the folder that was just
    added gives back the list, while an index out of range, negative
    ones included, or another answer leaves the list as it is. *)
Theorem remove_folder_undoes_add chosen game_paths :
  chosen ≠ "" →
  path_normpath chosen ∉ map path_normpath game_paths →
  remove_folder (Z.of_nat (length game_paths)) "제거"
    (add_folder chosen game_paths)
  = game_paths
  ∧ ∀ index answer l,
      index < 0 ∨ Z.of_nat (length l) ≤ index ∨ answer ≠ "제거" →
      remove_folder index answer l = l.
Proof.
  intros Hne Hnew. split.
  - unfold add_folder. apply nonempty_true in Hne. rewrite Hne.
    rewrite bool_decide_eq_false_2 by done.
    unfold remove_folder. rewrite length_app. cbn [length].
    rewrite (proj2 (Z.leb_le _ _)) by lia.
    rewrite (proj2 (Z.ltb_lt _ _)) by lia.
    change (String.eqb "제거" "제거") with true. cbv iota. cbn [andb].
    rewrite Nat2Z.id.
    induction game_paths as [|a l IH]; [done|].
    cbn. f_equal. apply IH. intros Hin. apply Hnew. cbn. by right.
  - intros index answer l [Hneg | [Hbig | Hno]]; unfold remove_folder.
    + by rewrite (proj2 (Z.leb_gt _ _)) by lia.
    + rewrite (proj2 (Z.ltb_ge _ _)) by lia. by rewrite andb_false_r.
    + rewrite (proj2 (String.eqb_neq _ _) Hno). by destruct (_ && _).
Qed.

End Manual.

(** ** Manual registration and the next scan *)

Section ManualThenScan.

Context `{R : Runtime}.

(** X22: a folder registered by hand is not fetched again.  The invalid
    list holds the normalized path of the folder; when that path is
    stored by [save_manual_info], and normalizing it again changes
    nothing, every later scan started on the table skips the folder:
    only the skipped list grows, by the name of the folder. *)
Theorem manual_registration_is_skipped entries game_path folder_name
    downloaded_image_path timestamp new_id master_has_viewer f games invalid
    games' invalid' st :
  save_manual_info entries (folder_of game_path folder_name)
    downloaded_image_path timestamp new_id master_has_viewer f games invalid
  = Some (games', invalid') →
  path_normpath (folder_of game_path folder_name)
  = folder_of game_path folder_name →
  in_scan (map game_data games') st →
  path_isdir (w_fs (sc_world st)) (folder_of game_path folder_name) = true →
  classify game_path st folder_name = Skipped
  ∧ scan_folder game_path st folder_name = Done (skip st folder_name).
Proof.
  unfold save_manual_info.
  destruct (nonempty (str_strip (entry_title entries))); cbn [negb]; [|done].
  intros [= <- _] Hnorm Hin Hdir.
  assert (folder_of game_path folder_name ∈ registered_folders st) as Hreg.
  { apply (in_scan_loaded _ _ Hin). apply elem_of_load_registered.
    eexists. split.
    - rewrite map_app. apply elem_of_app. right. cbn [map]. by left.
    - cbn [game_data folder_path]. by rewrite Hnorm. }
  assert (classify game_path st folder_name = Skipped) as Hc.
  { unfold classify. rewrite Hdir. cbn [negb].
    by rewrite bool_decide_eq_true_2. }
  split; [done|].
  pose proof (scan_folder_classify game_path st folder_name) as Hs.
  by rewrite Hc in Hs.
Qed.

End ManualThenScan.

(** ** The sample table *)

Import Shelf.

Lemma chosen_exe_is_remembered_witness :
  ∃ games' : list (@game rt_offline),
    @run_game rt_offline shelf "/g/RJ1" (JsonArray []) 2 (Some 1%nat)
    = (Some (@path_join rt_offline "/g/RJ1" ["b.exe"]), games')
    ∧ select_exe_files games' 2 = Some (json_dumps ["b.exe"])
    ∧ map game_id games' = map game_id shelf
    ∧ (∀ g : @game rt_offline, game_id g ≠ 2 → g ∈ shelf → g ∈ games')
    ∧ ∀ folder' exe_files' pick',
        run_game games' folder' exe_files' 2 pick'
        = (Some (@path_join rt_offline folder' ["b.exe"]), games').
Proof.
  apply (@chosen_exe_is_remembered rt_offline shelf "/g/RJ1" (JsonArray []) 2
           (JsonArray ["a.exe"; "b.exe"]) 1%nat "b.exe").
  - by vm_compute.
  - cbn. lia.
  - done.
  - done.
Defined.

(** The folder of the game exists and the trash fails. *)
Lemma delete_game_needs_consent_and_trash_witness :
  @delete_game rt_offline no_trash "삭제"
    {| game_id := 2; game_data := copy_row |} shelf_library
  = shelf_library.
Proof.
  apply (@delete_game_needs_consent_and_trash rt_offline).
  right. split; by vm_compute.
Defined.

Lemma delete_game_removes_the_row_witness :
  let g := {| game_id := 2; game_data := copy_row |} in
  let s' := @delete_game rt_offline trash "삭제" g shelf_library in
  lib_fs s' = [("/g", Posix.Dir)]
  ∧ (∀ x : @game rt_offline,
       x ∈ lib_games s' ↔ x ∈ lib_games shelf_library ∧ game_id x ≠ game_id g)
  ∧ lib_games s' `sublist_of` lib_games shelf_library
  ∧ select_exe_files (lib_games s') (game_id g) = None
  ∧ all_games (lib_pager s')
    = filter (λ x, game_id x ≠ game_id g) (all_games (lib_pager shelf_library))
  ∧ (NoDup (map game_id (lib_games shelf_library)) →
     g ∈ lib_games shelf_library →
     (length (lib_games s') + 1 = length (lib_games shelf_library))%nat).
Proof.
  intros g.
  apply (@delete_game_removes_the_row rt_offline trash g shelf_library
           [("/g", Posix.Dir)]).
  by vm_compute.
Defined.


Lemma manual_registration_clears_invalid_witness :
  ∃ (games' : list (@game rt_offline)) (invalid' : list string),
    @save_manual_info rt_offline title_only "/g/MyGame" None 5 4 false
      disk_empty_folders shelf ["/g/MyGame"; "/g/RJ1"]
    = Some (games', invalid')
    ∧ let remaining :=
        (process_invalid_folders (λ p, p) games' invalid').1 in
      (("/g/MyGame" : string) ∉ remaining)
      ∧ (∀ p, p ≠ "/g/MyGame" →
           p ∈ remaining
           ↔ p ∈ (process_invalid_folders (λ p, p) shelf
                    ["/g/MyGame"; "/g/RJ1"]).1)
      ∧ ((process_invalid_folders (λ p, p) games' invalid').2 = None
         ↔ remaining = []).
Proof.
  destruct (@save_manual_info rt_offline title_only "/g/MyGame" None 5 4 false
              disk_empty_folders shelf ["/g/MyGame"; "/g/RJ1"])
    as [[games' invalid']|] eqn:E.
  2: { assert (is_Some (@save_manual_info rt_offline title_only "/g/MyGame"
                          None 5 4 false disk_empty_folders shelf
                          ["/g/MyGame"; "/g/RJ1"])) as [x H].
       { apply (bool_decide_unpack _). by vm_compute. }
       congruence. }
  exists games', invalid'. split; [done|].
  exact (@manual_registration_clears_invalid rt_offline (λ p, p) title_only
           "/g/MyGame" None 5%nat 4 false disk_empty_folders shelf
           ["/g/MyGame"; "/g/RJ1"] games' invalid' E).
Defined.

Lemma add_folder_keeps_paths_distinct_witness :
  NoDup (map (@path_normpath rt_offline) (@add_folder rt_offline "/g//x/" ["/g"]))
  ∧ (("/g//x/" : string) ≠ "" →
     @path_normpath rt_offline "/g//x/"
     ∈ map (@path_normpath rt_offline) (@add_folder rt_offline "/g//x/" ["/g"]))
  ∧ @add_folder rt_offline "/g//x/" (@add_folder rt_offline "/g//x/" ["/g"])
    = @add_folder rt_offline "/g//x/" ["/g"].
Proof.
  apply (@add_folder_keeps_paths_distinct rt_offline "/g//x/" ["/g"]).
  - by vm_compute.
  - apply (bool_decide_unpack _). by vm_compute.
Defined.

Lemma remove_folder_undoes_add_witness :
  remove_folder (Z.of_nat (length ["/g"])) "제거"
    (@add_folder rt_offline "/g//x/" ["/g"])
  = ["/g"]
  ∧ ∀ index answer l,
      index < 0 ∨ Z.of_nat (length l) ≤ index ∨ answer ≠ "제거" →
      remove_folder index answer l = l.
Proof.
  apply (@remove_folder_undoes_add rt_offline "/g//x/" ["/g"]).
  - done.
  - apply (bool_decide_unpack _). by vm_compute.
Defined.

(** MyGame has no identifier; once registered by hand, a scan of the
    same disk skips it. *)
Lemma manual_registration_is_skipped_witness :
  ∃ (games' : list (@game rt_offline)) (invalid' : list string),
    @save_manual_info rt_offline title_only
      (@folder_of rt_offline "/g" "MyGame") None 5 4 false
      disk_empty_folders shelf ["/g/MyGame"; "/g/RJ1"]
    = Some (games', invalid')
    ∧ @classify rt_offline "/g"
        (start_scan (map game_data games') two_folders_offline) "MyGame"
      = Skipped
    ∧ @scan_folder rt_offline "/g"
        (start_scan (map game_data games') two_folders_offline) "MyGame"
      = Done (skip (start_scan (map game_data games') two_folders_offline)
                "MyGame").
Proof.
  destruct (@save_manual_info rt_offline title_only
              (@folder_of rt_offline "/g" "MyGame") None 5 4 false
              disk_empty_folders shelf ["/g/MyGame"; "/g/RJ1"])
    as [[games' invalid']|] eqn:E.
  2: { assert (is_Some (@save_manual_info rt_offline title_only
                          (@folder_of rt_offline "/g" "MyGame") None 5 4 false
                          disk_empty_folders shelf ["/g/MyGame"; "/g/RJ1"]))
         as [x H].
       { apply (bool_decide_unpack _). by vm_compute. }
       congruence. }
  exists games', invalid'. split; [done|].
  apply (@manual_registration_is_skipped rt_offline title_only "/g" "MyGame"
           None 5%nat 4 false disk_empty_folders shelf
           ["/g/MyGame"; "/g/RJ1"] games' invalid'
           (start_scan (map game_data games') two_folders_offline) E).
  - by vm_compute.
  - apply in_scan_start.
  - by vm_compute.
Defined.
